(** * Watchlist server actions and table view: a shallow embedding

    Embeds [src/lib/actions/watchlist.actions.ts] (the four server actions
    [getWatchlistSymbolsByEmail], [getUserWatchlist], [addToWatchlist],
    [removeFromWatchlist]) and [handleRemove] of
    [src/components/WatchlistTable.tsx].  The repository keeps a second
    copy of the actions module that differs in [getUserWatchlist] only
    (no enrichment step); it is embedded as [getUserWatchlist_plain].

    - JavaScript numbers are IEEE-754 binary64 values: Rocq's primitive
      [float].  [Number.prototype.toFixed] is computed on the exact
      mantissa/exponent of the value, as ECMA-262 prescribes.
    - Strings are [string]s of 8-bit code units.
    - A thrown value (a rejected promise) is an explicit [Throw] outcome;
      [try]/[catch] is a combinator, so totality of an action is a theorem
      about where its handlers sit, not an artefact of the model.
    - The document store, the process environment and the console are
      fields of an explicit [World] threaded through every action.
    - The per-symbol [async] callback is a resumption ([Task]) that exposes
      each awaited upstream request, so both a sequential run and an
      arbitrary arrival order of responses can be given to it. *)

From Stdlib Require Import ZArith List String Ascii Bool Lia Floats.
From Stdlib Require Import DecimalString Sorted Permutation.
Import ListNotations.

Set Warnings "-inexact-float".
Local Open Scope string_scope.
Local Open Scope Z_scope.

(* ================================================================== *)
(** ** JavaScript built-ins used by the source *)
(* ================================================================== *)

Module JS.

(** Decimal digits of a non-negative integer ("0" for zero). *)
Definition digits (n : Z) : string :=
  NilZero.string_of_uint (N.to_uint (Z.to_N n)).

Fixpoint zeros (k : nat) : string :=
  match k with
  | O => ""
  | S k' => String "0" (zeros k')
  end.

(** The integer [n] for which [n / 10^f - m * 2^e] is as close to zero as
    possible, the larger one on a tie (ECMA-262, Number.prototype.toFixed,
    step 11.a). *)
Definition scaled_round (m : positive) (e : Z) (f : nat) : Z :=
  let num := Zpos m * 10 ^ Z.of_nat f in
  if 0 <=? e then num * 2 ^ e
  else (num + 2 ^ (- e - 1)) / 2 ^ (- e).

(** Steps 11.b--11.c: left-pad to [f + 1] digits and put the point before
    the last [f] digits. *)
Definition place_point (ds : string) (f : nat) : string :=
  match f with
  | O => ds
  | _ =>
      let k := String.length ds in
      let ds' := if Nat.leb k f then zeros (f + 1 - k) ++ ds else ds in
      let k' := String.length ds' in
      substring 0 (k' - f) ds' ++ "." ++ substring (k' - f) f ds'
  end.

(** Does the integer [v] round (to nearest, ties to even) to the binary64
    value [m * 2^e]?  Only used for [e > 0], where every value is an
    integer.  Both bounds are doubled to stay in [Z]. *)
Definition rounds_to (m : positive) (e : Z) (v : Z) : bool :=
  let x2 := 2 * (Zpos m * 2 ^ e) in
  let hi2 := x2 + 2 ^ e in
  let lo2 := x2 - (if (Zpos m =? 2 ^ 52) then 2 ^ (e - 1) else 2 ^ e) in
  if Z.even (Zpos m)
  then (lo2 <=? 2 * v) && (2 * v <=? hi2)
  else (lo2 <? 2 * v) && (2 * v <? hi2).

(** Candidate significands with [k] digits and decimal exponent [n] for
    the value [m * 2^e], paired with their distance to it. *)
Definition candidates (m : positive) (e : Z) (k n : nat)
  : list (Z * Z * nat) :=
  let x := Zpos m * 2 ^ e in
  let p := 10 ^ (Z.of_nat n - Z.of_nat k) in
  let ok s :=
    (10 ^ (Z.of_nat k - 1) <=? s) && (s <? 10 ^ Z.of_nat k)
    && rounds_to m e (s * p) in
  map (fun s => (s, Z.abs (s * p - x), n))
      (filter ok [x / p; x / p + 1]).

Definition closer (a b : Z * Z * nat) : Z * Z * nat :=
  let '(sa, da, _) := a in
  let '(sb, db, _) := b in
  if da <? db then a
  else if db <? da then b
  else if Z.even sa then a else b.

Fixpoint shortest (m : positive) (e : Z) (n0 : nat) (k : nat) (fuel : nat)
  : option (Z * Z * nat) :=
  match fuel with
  | O => None
  | S fuel' =>
      match (candidates m e k n0 ++ candidates m e k (S n0))%list with
      | c :: cs => Some (fold_left closer cs c)
      | [] => shortest m e n0 (S k) fuel'
      end
  end.

(** Number::toString for a finite value [m * 2^e >= 10^21]: the shortest
    significand that reads back as the same binary64 value, in exponent
    notation. *)
Definition toString_large (m : positive) (e : Z) : string :=
  let n0 := String.length (digits (Zpos m * 2 ^ e)) in
  match shortest m e n0 1 17 with
  | Some (s, _, n) =>
      let ds := digits s in
      let ex := "e+" ++ digits (Z.of_nat n - 1) in
      match ds with
      | String d EmptyString => ds ++ ex
      | String d rest => String d ("." ++ rest) ++ ex
      | EmptyString => ex
      end
  | None => ""
  end.

(** [x.toFixed(f)] for [0 <= f <= 100]; every call site passes 2. *)
Definition toFixed (x : float) (f : nat) : string :=
  match Prim2SF x with
  | S754_nan => "NaN"
  | S754_infinity false => "Infinity"
  | S754_infinity true => "-Infinity"
  | S754_zero _ => place_point "0" f
  | S754_finite sgn m e =>
      let s := if sgn then "-" else "" in
      if 10 ^ 21 <=? (if 0 <=? e then Zpos m * 2 ^ e else 0)
      then s ++ toString_large m e
      else s ++ place_point (digits (scaled_round m e f)) f
  end.

(** ToBoolean on a number: [0], [-0] and [NaN] are falsy. *)
Definition truthy (x : float) : bool :=
  negb (PrimFloat.eqb x 0) && PrimFloat.eqb x x.

(** ToBoolean on an optional number ([undefined] is falsy). *)
Definition truthy_opt (v : option float) : bool :=
  match v with
  | Some x => truthy x
  | None => false
  end.

(** [a || b] on optional numbers. *)
Definition or_else (a b : option float) : option float :=
  if truthy_opt a then a else b.

(** ToBoolean on a string: only the empty string is falsy. *)
Definition truthy_str (s : string) : bool :=
  negb (s =? "")%string.

(** [a ?? b]: the right operand only when the left one is [undefined]. *)
Definition nullish {A : Type} (a b : option A) : option A :=
  match a with
  | Some _ => a
  | None => b
  end.

Definition upper_ascii (c : ascii) : ascii :=
  let n := nat_of_ascii c in
  if (Nat.leb 97 n && Nat.leb n 122)%bool then ascii_of_nat (n - 32) else c.

(** [s.toUpperCase()]; code units outside [a]..[z] are kept as they are. *)
Fixpoint toUpperCase (s : string) : string :=
  match s with
  | EmptyString => EmptyString
  | String c r => String (upper_ascii c) (toUpperCase r)
  end.

End JS.

Import JS.

(* ================================================================== *)
(** ** Data model *)
(* ================================================================== *)

(** A document of the Watchlist collection as [lean()] returns it;
    [addedAt] is the date in milliseconds since the epoch. *)
Record WatchlistItem := mkItem {
  userId : string;
  symbol : string;
  company : string;
  addedAt : Z
}.

(** [StockWithData]: the four stored fields, and the six optional ones the
    enrichment adds ([None] is [undefined]). *)
Record StockWithData := mkStock {
  sw_userId : string;
  sw_symbol : string;
  sw_company : string;
  sw_addedAt : Z;
  currentPrice : option float;
  changePercent : option float;
  priceFormatted : option string;
  changeFormatted : option string;
  marketCap : option string;
  peRatio : option string
}.

(** [financialsData.metric]. *)
Record Metric := mkMetric {
  peExclExtraTTM : option float;
  peNormalizedAnnual : option float
}.

(** A parsed JSON response body.  The casts [as QuoteData],
    [as ProfileData] and [as FinancialsData] do nothing at run time, so the
    three are views of one loosely typed object: only the properties the
    source reads are kept, each optional and, as the three types declare
    them, a number when present.  A body that is [null] is [None] at the
    use sites ([quoteData?.c]). *)
Record Body := mkBody {
  c : option float;
  dp : option float;
  marketCapitalization : option float;
  metric : option Metric
}.

(** A thrown value: an Error object (what the store driver, [fetch] and
    [json()] throw), with its numeric [code] property when it has one. *)
Record JsError := mkError {
  code : option Z;
  description : string
}.

(** What evaluating (or awaiting) an expression gives. *)
Inductive res (A : Type) : Type :=
| Ret (a : A)
| Throw (e : JsError).
Arguments Ret {A} a.
Arguments Throw {A} e.

(** [{ success: boolean; message: string }]. *)
Record ActionResult := mkResult {
  success : bool;
  message : string
}.

(** A record of Better Auth's "user" collection: [id], [_id] (in its
    string form) and [email]. *)
Record UserDoc := mkUser {
  user_id : option string;
  user__id : option string;
  user_email : string
}.

(* ================================================================== *)
(** ** The world the actions run in *)
(* ================================================================== *)

(** The document store.  [conn_error] makes [connectToDatabase()] reject,
    [query_error] makes every query reject; [connection_db] is
    [mongoose.connection.db]. *)
Record Db := mkDb {
  conn_error : option JsError;
  connection_db : bool;
  query_error : option JsError;
  users : list UserDoc;
  docs : list WatchlistItem;
  clock : Z
}.

Record Env := mkEnv {
  FINNHUB_API_KEY : option string;
  NEXT_PUBLIC_FINNHUB_API_KEY : option string
}.

(** The market-data API: what [await (await fetch(url)).json()] gives. *)
Definition Upstream : Type := string -> res (option Body).

(** Requests made to the store, in the order they are issued. *)
Inductive StoreOp : Type :=
| OpConnect
| OpFindOne (email : string)
| OpFind (uid : string)
| OpFindSorted (uid : string)
| OpCreate (uid sym comp : string)
| OpDeleteOne (uid sym : string).

Record World := mkWorld {
  db : Db;
  env : Env;
  upstream : Upstream;
  console : list string;
  queries : list StoreOp
}.

Definition set_db (d : Db) (w : World) : World :=
  mkWorld d (env w) (upstream w) (console w) (queries w).

Definition set_docs (ds : list WatchlistItem) (d : Db) : Db :=
  mkDb (conn_error d) (connection_db d) (query_error d) (users d) ds
       (clock d).

(** [M A]: a computation that reads and changes the world and either
    returns or throws.  The world a thrower leaves behind is kept. *)
Definition M (A : Type) : Type := World -> res A * World.

Definition ret {A : Type} (a : A) : M A := fun w => (Ret a, w).

Definition throw {A : Type} (e : JsError) : M A := fun w => (Throw e, w).

Definition bind {A B : Type} (m : M A) (k : A -> M B) : M B :=
  fun w =>
    match m w with
    | (Ret a, w') => k a w'
    | (Throw e, w') => (Throw e, w')
    end.

(** [try { m } catch (err) { h err }]. *)
Definition try_catch {A : Type} (m : M A) (h : JsError -> M A) : M A :=
  fun w =>
    match m w with
    | (Ret a, w') => (Ret a, w')
    | (Throw e, w') => h e w'
    end.

Declare Scope action_scope.
Delimit Scope action_scope with action.
Notation "x <- m ;; k" := (bind m (fun x => k))
  (at level 61, m at next level, right associativity) : action_scope.
Notation "m ;; k" := (bind m (fun _ => k))
  (at level 61, right associativity) : action_scope.
Local Open Scope action_scope.

(** [console.error(line, ...)]: only the leading text is recorded. *)
Definition console_error (line : string) : M unit :=
  fun w =>
    (Ret tt,
     mkWorld (db w) (env w) (upstream w) (console w ++ [line])%list
             (queries w)).

Definition issue (op : StoreOp) : M unit :=
  fun w =>
    (Ret tt,
     mkWorld (db w) (env w) (upstream w) (console w)
             (queries w ++ [op])%list).

(** [await connectToDatabase()]; the value is [mongoose.connection.db]'s
    presence. *)
Definition connectToDatabase : M bool :=
  issue OpConnect ;;
  fun w =>
    match conn_error (db w) with
    | Some e => (Throw e, w)
    | None => (Ret (connection_db (db w)), w)
    end.

(** A query on a collection: recorded, then rejected when the store is
    failing, else run on the documents. *)
Definition query {A : Type} (op : StoreOp) (run : Db -> res A * Db) : M A :=
  issue op ;;
  fun w =>
    match query_error (db w) with
    | Some e => (Throw e, w)
    | None => let (r, d') := run (db w) in (r, set_db d' w)
    end.

Definition same_pair (uid sym : string) (d : WatchlistItem) : bool :=
  (userId d =? uid)%string && (symbol d =? sym)%string.

(** Insertion into a list that is ordered by [addedAt], latest first. *)
Fixpoint insert_desc (x : WatchlistItem) (l : list WatchlistItem)
  : list WatchlistItem :=
  match l with
  | [] => [x]
  | y :: l' =>
      if addedAt y <=? addedAt x then x :: y :: l'
      else y :: insert_desc x l'
  end.

(** [.sort({ addedAt: -1 })]. *)
Fixpoint sort_desc (l : list WatchlistItem) : list WatchlistItem :=
  match l with
  | [] => []
  | x :: l' => insert_desc x (sort_desc l')
  end.

(** [Watchlist.find({ userId }).sort({ addedAt: -1 }).lean()]. *)
Definition find_sorted (uid : string) : M (list WatchlistItem) :=
  query (OpFindSorted uid)
    (fun d =>
       (Ret (sort_desc (filter (fun i => (userId i =? uid)%string) (docs d))),
        d)).

(** [Watchlist.find({ userId }, { symbol: 1 }).lean()]: the matching
    documents, of which only [symbol] is read. *)
Definition find_symbols (uid : string) : M (list WatchlistItem) :=
  query (OpFind uid)
    (fun d =>
       (Ret (filter (fun i => (userId i =? uid)%string) (docs d)), d)).

(** [db.collection("user").findOne({ email })]. *)
Definition findOne_user (email : string) : M (option UserDoc) :=
  query (OpFindOne email)
    (fun d =>
       (Ret (find (fun u => (user_email u =? email)%string) (users d)), d)).

(** The error a violated unique index raises (MongoDB E11000). *)
Definition duplicate_key : JsError :=
  mkError (Some 11000) "E11000 duplicate key error".

(** Modelled from the spec: the Watchlist schema
    (database/models/watchlist.model.ts) is absent.  "(userId, symbol) is
    unique -- a second insert attempt for the same pair must fail
    distinguishably from other failures"; the store offers
    "insert-with-uniqueness-constraint (violation surfaced as a
    distinguishable error code)".  A created entry gets the current time as
    [addedAt]. *)
Definition create (uid sym comp : string) : M unit :=
  query (OpCreate uid sym comp)
    (fun d =>
       if existsb (same_pair uid sym) (docs d)
       then (Throw duplicate_key, d)
       else (Ret tt,
             set_docs (docs d ++ [mkItem uid sym comp (clock d)])%list d)).

(** Removes the first element satisfying [p]. *)
Fixpoint remove_first (p : WatchlistItem -> bool) (l : list WatchlistItem)
  : list WatchlistItem :=
  match l with
  | [] => []
  | x :: l' => if p x then l' else x :: remove_first p l'
  end.

(** [Watchlist.deleteOne({ userId, symbol })]; the value is
    [result.deletedCount]. *)
Definition deleteOne (uid sym : string) : M Z :=
  query (OpDeleteOne uid sym)
    (fun d =>
       if existsb (same_pair uid sym) (docs d)
       then (Ret 1, set_docs (remove_first (same_pair uid sym) (docs d)) d)
       else (Ret 0, d)).

(* ================================================================== *)
(** ** Asynchronous callbacks as resumptions *)
(* ================================================================== *)

(** An [async] function body, up to its next suspension point: it has
    returned, has thrown, writes to the console and goes on, or awaits the
    parsed response of a request and goes on with what the await gave. *)
Inductive Task (A : Type) : Type :=
| Done (a : A)
| Fail (e : JsError)
| Log (line : string) (t : Task A)
| Await (url : string) (k : res (option Body) -> Task A).
Arguments Done {A} a.
Arguments Fail {A} e.
Arguments Log {A} line t.
Arguments Await {A} url k.

Fixpoint tbind {A B : Type} (t : Task A) (k : A -> Task B) : Task B :=
  match t with
  | Done a => k a
  | Fail e => Fail e
  | Log line t' => Log line (tbind t' k)
  | Await url k' => Await url (fun r => tbind (k' r) k)
  end.

(** [try { t } catch (error) { h error }] inside an [async] function. *)
Fixpoint tcatch {A : Type} (t : Task A) (h : JsError -> Task A) : Task A :=
  match t with
  | Done a => Done a
  | Fail e => h e
  | Log line t' => Log line (tcatch t' h)
  | Await url k => Await url (fun r => tcatch (k r) h)
  end.

Notation "x <~ t ;; k" := (tbind t (fun x => k))
  (at level 61, t at next level, right associativity) : action_scope.

(** [(await (await fetch(url, { cache: "no-store" })).json())]: one request;
    a rejected [fetch] or a body that does not parse throws. *)
Definition fetchJson (url : string) : Task (option Body) :=
  Await url (fun r =>
    match r with
    | Ret body => Done body
    | Throw e => Fail e
    end).

(** Runs a task to its end, every request answered by [up] at once.
    The value is the outcome and the console lines written. *)
Fixpoint run_task {A : Type} (up : Upstream) (t : Task A)
  : res A * list string :=
  match t with
  | Done a => (Ret a, [])
  | Fail e => (Throw e, [])
  | Log line t' => let (r, ls) := run_task up t' in (r, line :: ls)
  | Await url k => run_task up (k (up url))
  end.

(** The requests a task issues when [up] answers them, in order. *)
Fixpoint requests {A : Type} (up : Upstream) (t : Task A) : list string :=
  match t with
  | Done _ | Fail _ => []
  | Log _ t' => requests up t'
  | Await url k => url :: requests up (k (up url))
  end.

(** The request a suspended task is waiting for. *)
Definition pending {A : Type} (t : Task A) : option string :=
  match t with
  | Await url _ => Some url
  | _ => None
  end.

Definition settled {A : Type} (t : Task A) : bool :=
  match t with
  | Done _ | Fail _ => true
  | _ => false
  end.

(** One step of a task: it takes the response it waits for, or writes its
    console line.  A settled task stays as it is. *)
Definition resume {A : Type} (up : Upstream) (t : Task A) : Task A :=
  match t with
  | Await url k => k (up url)
  | Log _ t' => t'
  | _ => t
  end.

(** The [i]-th task of a pool makes a step. *)
Fixpoint resume_nth {A : Type} (up : Upstream) (i : nat)
  (pool : list (Task A)) : list (Task A) :=
  match pool, i with
  | [], _ => []
  | t :: pool', O => resume up t :: pool'
  | t :: pool', S i' => t :: resume_nth up i' pool'
  end.

(** A schedule is the order in which the tasks of a pool get to make their
    steps (the order in which the responses arrive). *)
Fixpoint run_schedule {A : Type} (up : Upstream) (sched : list nat)
  (pool : list (Task A)) : list (Task A) :=
  match sched with
  | [] => pool
  | i :: sched' => run_schedule up sched' (resume_nth up i pool)
  end.

(** What [Promise.all] over a pool has to offer at this point: nothing
    while a task is still running and none has thrown; an error as soon as
    a task has thrown (the one of the first such task in the list: which
    one [Promise.all] reports depends on timing, and nothing below depends
    on it); the values, in the order of the pool, once every task has
    returned. *)
Fixpoint promise_all_now {A : Type} (pool : list (Task A))
  : option (res (list A)) :=
  match pool with
  | [] => Some (Ret [])
  | t :: pool' =>
      match t, promise_all_now pool' with
      | Fail e, _ => Some (Throw e)
      | _, Some (Throw e) => Some (Throw e)
      | Done a, Some (Ret l) => Some (Ret (a :: l))
      | _, _ => None
      end
  end.

(** [await Promise.all(tasks)] with every response at hand: the values in
    the order of the list, or the first error; the console lines of every
    task are written either way. *)
Fixpoint promise_all_run {A : Type} (up : Upstream) (ts : list (Task A))
  : res (list A) * list string :=
  match ts with
  | [] => (Ret [], [])
  | t :: ts' =>
      let (r, ls) := run_task up t in
      let (rs, ls') := promise_all_run up ts' in
      (match r, rs with
       | Throw e, _ => Throw e
       | Ret _, Throw e => Throw e
       | Ret a, Ret l => Ret (a :: l)
       end, (ls ++ ls')%list)
  end.

Definition promise_all {A : Type} (ts : list (Task A)) : M (list A) :=
  fun w =>
    let (r, ls) := promise_all_run (upstream w) ts in
    (r,
     mkWorld (db w) (env w) (upstream w) (console w ++ ls)%list (queries w)).

(* ================================================================== *)
(** ** getUserWatchlist: the merge *)
(* ================================================================== *)

(** [v ? f(v) : undefined]. *)
Definition when_truthy (v : option float) (f : float -> string)
  : option string :=
  match v with
  | Some x => if truthy x then Some (f x) else None
  | None => None
  end.

(** [`$${currentPrice.toFixed(2)}`]. *)
Definition formatPrice (currentPrice : float) : string :=
  "$" ++ toFixed currentPrice 2.

(** [`${changePercent > 0 ? "+" : ""}${changePercent.toFixed(2)}%`]. *)
Definition formatChange (changePercent : float) : string :=
  (if PrimFloat.ltb 0 changePercent then "+" else "")
  ++ toFixed changePercent 2 ++ "%".

(** The nested conditional on [marketCapValue]. *)
Definition formatMarketCap (marketCapValue : float) : string :=
  if PrimFloat.leb 1e3 marketCapValue
  then "$" ++ toFixed (marketCapValue / 1e3) 2 ++ "T"
  else if PrimFloat.leb 1 marketCapValue
  then "$" ++ toFixed marketCapValue 2 ++ "B"
  else "$" ++ toFixed (marketCapValue * 1e3) 2 ++ "M".

(** [obj?.field]. *)
Definition opt_get {A B : Type} (o : option A) (field : A -> option B)
  : option B :=
  match o with
  | Some a => field a
  | None => None
  end.

(** [financialsData?.metric?.peExclExtraTTM ||
     financialsData?.metric?.peNormalizedAnnual]. *)
Definition peRatioValue (financialsData : option Body) : option float :=
  or_else (opt_get (opt_get financialsData metric) peExclExtraTTM)
          (opt_get (opt_get financialsData metric) peNormalizedAnnual).

(** The object returned on the success path of the callback. *)
Definition merge (item : WatchlistItem)
  (quoteData profileData financialsData : option Body) : StockWithData :=
  let currentPrice := opt_get quoteData c in
  let changePercent := opt_get quoteData dp in
  let marketCapValue := opt_get profileData marketCapitalization in
  let peRatioValue := peRatioValue financialsData in
  {| sw_userId := userId item;
     sw_symbol := symbol item;
     sw_company := company item;
     sw_addedAt := addedAt item;
     currentPrice := currentPrice;
     changePercent := changePercent;
     priceFormatted := when_truthy currentPrice formatPrice;
     changeFormatted := when_truthy changePercent formatChange;
     marketCap := when_truthy marketCapValue formatMarketCap;
     peRatio := when_truthy peRatioValue (fun v => toFixed v 2) |}.

(** The object with the stored fields only (no credential, or the
    callback's [catch]). *)
Definition basic (item : WatchlistItem) : StockWithData :=
  {| sw_userId := userId item;
     sw_symbol := symbol item;
     sw_company := company item;
     sw_addedAt := addedAt item;
     currentPrice := None;
     changePercent := None;
     priceFormatted := None;
     changeFormatted := None;
     marketCap := None;
     peRatio := None |}.

Definition FINNHUB_BASE_URL : string := "https://finnhub.io/api/v1".

Definition quoteUrl (token : string) (item : WatchlistItem) : string :=
  FINNHUB_BASE_URL ++ "/quote?symbol=" ++ symbol item ++ "&token=" ++ token.

Definition profileUrl (token : string) (item : WatchlistItem) : string :=
  FINNHUB_BASE_URL ++ "/stock/profile2?symbol=" ++ symbol item
  ++ "&token=" ++ token.

Definition financialsUrl (token : string) (item : WatchlistItem) : string :=
  FINNHUB_BASE_URL ++ "/stock/metric?symbol=" ++ symbol item
  ++ "&metric=all&token=" ++ token.

(** The callback given to [items.map]: three awaited requests, one after
    the other, inside one [try]. *)
Definition enrichItem (token : string) (item : WatchlistItem)
  : Task StockWithData :=
  tcatch
    (quoteData <~ fetchJson (quoteUrl token item) ;;
     profileData <~ fetchJson (profileUrl token item) ;;
     financialsData <~ fetchJson (financialsUrl token item) ;;
     Done (merge item quoteData profileData financialsData))
    (fun error =>
       Log ("Error fetching data for " ++ symbol item ++ ":")
           (Done (basic item))).

(** [process.env.FINNHUB_API_KEY ?? process.env.NEXT_PUBLIC_FINNHUB_API_KEY]. *)
Definition configured_token (e : Env) : option string :=
  nullish (FINNHUB_API_KEY e) (NEXT_PUBLIC_FINNHUB_API_KEY e).

(** [!token] is false: the token is a non-empty string. *)
Definition usable_token (e : Env) : option string :=
  match configured_token e with
  | Some token => if truthy_str token then Some token else None
  | None => None
  end.

Definition getenv : M Env := fun w => (Ret (env w), w).

(* ================================================================== *)
(** ** The server actions *)
(* ================================================================== *)

Definition getUserWatchlist (userId : string) : M (list StockWithData) :=
  if negb (truthy_str userId) then ret []
  else
    try_catch
      (connectToDatabase ;;
       items <- find_sorted userId ;;
       e <- getenv ;;
       match usable_token e with
       | None =>
           console_error "FINNHUB API key not configured" ;;
           ret (map basic items)
       | Some token =>
           stocksWithData <- promise_all (map (enrichItem token) items) ;;
           ret stocksWithData
       end)
      (fun err => console_error "getUserWatchlist error:" ;; ret []).

(** The same action in the other copy of the module kept in the
    repository, which has no enrichment step. *)
Definition getUserWatchlist_plain (userId : string) : M (list StockWithData) :=
  if negb (truthy_str userId) then ret []
  else
    try_catch
      (connectToDatabase ;;
       items <- find_sorted userId ;;
       ret (map basic items))
      (fun err => console_error "getUserWatchlist error:" ;; ret []).

Definition getWatchlistSymbolsByEmail (email : string) : M (list string) :=
  if negb (truthy_str email) then ret []
  else
    try_catch
      (has_db <- connectToDatabase ;;
       (if negb has_db
        then throw (mkError None "MongoDB connection not found")
        else ret tt) ;;
       user <- findOne_user email ;;
       match user with
       | None => ret []
       | Some user =>
           let userId :=
             match user_id user with
             | Some id => if truthy_str id then id
                          else match user__id user with Some i => i | None => "" end
             | None => match user__id user with Some i => i | None => "" end
             end in
           if negb (truthy_str userId) then ret []
           else
             items <- find_symbols userId ;;
             ret (map symbol items)
       end)
      (fun err => console_error "getWatchlistSymbolsByEmail error:" ;; ret []).

Definition addToWatchlist (userId symbol company : string) : M ActionResult :=
  if negb (truthy_str userId) || negb (truthy_str symbol)
     || negb (truthy_str company)
  then ret (mkResult false "Missing required fields")
  else
    try_catch
      (connectToDatabase ;;
       create userId (toUpperCase symbol) company ;;
       ret (mkResult true "Added to watchlist"))
      (fun err =>
         console_error "addToWatchlist error:" ;;
         if match code err with Some n => n =? 11000 | None => false end
         then ret (mkResult false "Stock already in watchlist")
         else ret (mkResult false "Failed to add to watchlist")).

Definition removeFromWatchlist (userId symbol : string) : M ActionResult :=
  if negb (truthy_str userId) || negb (truthy_str symbol)
  then ret (mkResult false "Missing required fields")
  else
    try_catch
      (connectToDatabase ;;
       deletedCount <- deleteOne userId (toUpperCase symbol) ;;
       if deletedCount =? 0
       then ret (mkResult false "Stock not found in watchlist")
       else ret (mkResult true "Removed from watchlist"))
      (fun err =>
         console_error "removeFromWatchlist error:" ;;
         ret (mkResult false "Failed to remove from watchlist")).

(* ================================================================== *)
(** ** WatchlistTable: the view state and handleRemove *)
(* ================================================================== *)

Inductive Toast : Type :=
| toast_success (text : string)
| toast_error (text : string).

(** The two [useState] cells of the component and the notifications shown
    so far. *)
Record View := mkView {
  items : list StockWithData;
  removing : option string;
  toasts : list Toast
}.

Definition setRemoving (r : option string) (v : View) : View :=
  mkView (items v) r (toasts v).

(** [setItems((prev) => f(prev))]. *)
Definition setItems (f : list StockWithData -> list StockWithData) (v : View)
  : View :=
  mkView (f (items v)) (removing v) (toasts v).

Definition toast (t : Toast) (v : View) : View :=
  mkView (items v) (removing v) (toasts v ++ [t])%list.

(** Calling a server action from the client: the call itself can fail
    ([net] is the error it fails with) before the action runs. *)
Definition call_action {A : Type} (net : option JsError) (m : M A) : M A :=
  match net with
  | Some e => throw e
  | None => m
  end.

Definition handleRemove (net : option JsError) (userId symbol : string)
  (v : View) (w : World) : View * World :=
  let v1 := setRemoving (Some symbol) v in
  let (r, w') := call_action net (removeFromWatchlist userId symbol) w in
  let v2 :=
    match r with
    | Ret result =>
        if success result
        then toast (toast_success "Removed from watchlist")
               (setItems
                  (fun prev =>
                     filter (fun item => negb (sw_symbol item =? symbol)%string) prev)
                  v1)
        else toast (toast_error
                      (if truthy_str (message result) then message result
                       else "Failed to remove")) v1
    | Throw error => toast (toast_error "An error occurred") v1
    end in
  (setRemoving None v2, w').

(* ================================================================== *)
(** ** WatchlistTable: what is rendered *)
(* ================================================================== *)

(** [value || "N/A"] on an optional string. *)
Definition or_NA (value : option string) : string :=
  match value with
  | Some text => if truthy_str text then text else "N/A"
  | None => "N/A"
  end.

(** The class chosen for the change cell. *)
Definition changeColor (row : StockWithData) : string :=
  match changePercent row with
  | Some x =>
      if truthy x && PrimFloat.ltb 0 x then "text-green-500"
      else if truthy x && PrimFloat.ltb x 0 then "text-red-500"
      else "text-gray-400"
  | None => "text-gray-400"
  end.

(** A [TableRow]: its key, the texts of its cells, the class of the change
    cell and the state of its button. *)
Record RowView := mkRow {
  row_key : string;
  cell_company : string;
  cell_symbol : string;
  cell_price : string;
  cell_change : string;
  cell_change_class : string;
  cell_marketCap : string;
  cell_peRatio : string;
  cell_alert : string;
  button_disabled : bool;
  button_label : string
}.

(** [removing === row.symbol]. *)
Definition is_removing (removing : option string) (row : StockWithData) : bool :=
  match removing with
  | Some sym => (sym =? sw_symbol row)%string
  | None => false
  end.

Definition render_row (removing : option string) (row : StockWithData)
  : RowView :=
  {| row_key := sw_symbol row;
     cell_company := sw_company row;
     cell_symbol := sw_symbol row;
     cell_price := or_NA (priceFormatted row);
     cell_change := or_NA (changeFormatted row);
     cell_change_class := changeColor row;
     cell_marketCap := or_NA (marketCap row);
     cell_peRatio := or_NA (peRatio row);
     cell_alert := "None";
     button_disabled := is_removing removing row;
     button_label :=
       if is_removing removing row then "Removing..." else "Remove" |}.

(** What the component returns: the empty-state block, or the table with
    its header cells and one row per item. *)
Inductive Rendered : Type :=
| EmptyState (line1 line2 : string)
| TableView (header : list string) (rows : list RowView).

(** The body of [WatchlistTable] after its hooks; [header] is
    [WATCHLIST_TABLE_HEADER], a constant of lib/constants. *)
Definition render (header : list string) (v : View) : Rendered :=
  if (List.length (items v) =? 0)%nat
  then EmptyState "Your watchlist is empty"
                  "Add stocks to your watchlist to track them here"
  else TableView header (map (render_row (removing v)) (items v)).

(** The state of a freshly mounted table: [useState(watchlist)] and
    [useState(null)]. *)
Definition mount (watchlist : list StockWithData) : View :=
  mkView watchlist None [].

(* ================================================================== *)
(** ** WatchlistPage *)
(* ================================================================== *)

(** [session.user], of which [id] is read. *)
Record AuthUser := mkAuthUser {
  auth_id : string
}.

(** What [auth.api.getSession] resolves to when it is not [null]. *)
Record Session := mkSession {
  session_user : option AuthUser
}.

(** What the page comes to: the redirect raised by [redirect(...)], or the
    element with the props handed to [WatchlistTable]. *)
Inductive PageResult : Type :=
| Redirected (url : string)
| Page (watchlist : list StockWithData) (uid : string).

(** [WatchlistPage]; [getSession] is what
    [await auth.api.getSession({ headers: await headers() })] gives. *)
Definition WatchlistPage (getSession : res (option Session)) : M PageResult :=
  session <- (fun w => (getSession, w)) ;;
  match opt_get session session_user with
  | None => ret (Redirected "/sign-in")
  | Some user =>
      let userId := auth_id user in
      watchlist <- getUserWatchlist userId ;;
      ret (Page watchlist userId)
  end.

(** What the user sees once the page has been served. *)
Definition shown (header : list string) (p : PageResult) : option Rendered :=
  match p with
  | Redirected _ => None
  | Page watchlist _ => Some (render header (mount watchlist))
  end.

(* ================================================================== *)
(** ** Properties *)
(* ================================================================== *)

(** The stored part of a returned record. *)
Definition entry_of (r : StockWithData) : WatchlistItem :=
  mkItem (sw_userId r) (sw_symbol r) (sw_company r) (sw_addedAt r).

(** No numeric and no formatted field is present. *)
Definition bare (r : StockWithData) : Prop :=
  currentPrice r = None /\ changePercent r = None /\
  priceFormatted r = None /\ changeFormatted r = None /\
  marketCap r = None /\ peRatio r = None.

(** The store answers: connecting and querying do not fail. *)
Definition store_up (w : World) : Prop :=
  conn_error (db w) = None /\ query_error (db w) = None.

(** The entries of a user, as the sorted query returns them. *)
Definition entries_of (uid : string) (w : World) : list WatchlistItem :=
  sort_desc (filter (fun i => (userId i =? uid)%string) (docs (db w))).

(** One of the three calls for the entry throws. *)
Definition calls_throw (up : Upstream) (token : string) (item : WatchlistItem)
  : Prop :=
  (exists e, up (quoteUrl token item) = Throw e) \/
  (exists e, up (profileUrl token item) = Throw e) \/
  (exists e, up (financialsUrl token item) = Throw e).

(** The three calls for the entry return [q], [p] and [f]. *)
Definition calls_return (up : Upstream) (token : string) (item : WatchlistItem)
  (q p f : option Body) : Prop :=
  up (quoteUrl token item) = Ret q /\
  up (profileUrl token item) = Ret p /\
  up (financialsUrl token item) = Ret f.

(** Two upstreams answer the three calls for the entry alike. *)
Definition same_answers (up up' : Upstream) (token : string)
  (item : WatchlistItem) : Prop :=
  up (quoteUrl token item) = up' (quoteUrl token item) /\
  up (profileUrl token item) = up' (profileUrl token item) /\
  up (financialsUrl token item) = up' (financialsUrl token item).

(** The record the callback settles with, read off the three answers. *)
Definition enriched (up : Upstream) (token : string) (item : WatchlistItem)
  : StockWithData :=
  match up (quoteUrl token item), up (profileUrl token item),
        up (financialsUrl token item) with
  | Ret q, Ret p, Ret f => merge item q p f
  | _, _, _ => basic item
  end.

(** [rs] answers [items] entry by entry: same length, same symbols in the
    same order, the stored fields only where a call threw, the merge of the
    entry's own three answers where they all returned. *)
Definition degrades_per_symbol (up : Upstream) (token : string)
  (items : list WatchlistItem) (rs : list StockWithData) : Prop :=
  List.length rs = List.length items /\
  map sw_symbol rs = map symbol items /\
  forall i item, nth_error items i = Some item ->
    (calls_throw up token item -> nth_error rs i = Some (basic item)) /\
    (forall q p f, calls_return up token item q p f ->
                   nth_error rs i = Some (merge item q p f)).

(** At most one document per (userId, symbol). *)
Definition unique_pairs (ds : list WatchlistItem) : Prop :=
  NoDup (map (fun d => (userId d, symbol d)) ds).

(** [|x| < 10^21] and finite: [toFixed] prints [x] in fixed notation. *)
Definition fixed_range (x : float) : bool :=
  match Prim2SF x with
  | S754_zero _ => true
  | S754_finite _ m e =>
      negb (10 ^ 21 <=? (if 0 <=? e then Zpos m * 2 ^ e else 0))
  | _ => false
  end.

(** The text ends in a point and two more characters. *)
Definition two_decimals (s : string) : Prop :=
  exists a b, s = a ++ "." ++ b /\ String.length b = 2%nat.

(** Latest first. *)
Definition recent_first (rs : list StockWithData) : Prop :=
  StronglySorted (fun a b => sw_addedAt b <= sw_addedAt a) rs.

(** The fields Add checks are non-empty and the symbol is in upper case. *)
Definition well_formed (d : WatchlistItem) : Prop :=
  truthy_str (userId d) = true /\ truthy_str (symbol d) = true /\
  truthy_str (company d) = true /\ toUpperCase (symbol d) = symbol d.

(** What can happen to a world: one of the four actions runs, or
    something outside them changes anything but the Watchlist collection
    (the clock, the connectivity, the environment, the upstream). *)
Inductive step : World -> World -> Prop :=
| step_add u s co w : step w (snd (addToWatchlist u s co w))
| step_remove u s w : step w (snd (removeFromWatchlist u s w))
| step_list u w : step w (snd (getUserWatchlist u w))
| step_symbols e w : step w (snd (getWatchlistSymbolsByEmail e w))
| step_outside w w' : docs (db w') = docs (db w) -> step w w'.

(** The worlds that come from an empty collection. *)
Inductive reachable : World -> Prop :=
| reach_empty w : docs (db w) = [] -> reachable w
| reach_step w w' : reachable w -> step w w' -> reachable w'.

(** The schedule that lets the tasks of a pool of [n] run one after the
    other, four steps each (three responses and a console line at most). *)
Fixpoint in_turn (n : nat) : list nat :=
  match n with
  | O => []
  | S n' => (repeat O 4 ++ map S (in_turn n'))%list
  end.

(** The outcome a task settles with. *)
Definition outcome {A : Type} (up : Upstream) (t : Task A) : res A :=
  fst (run_task up t).

(** The action returned and reported success. *)
Definition success_of (r : res ActionResult) : bool :=
  match r with
  | Ret a => success a
  | Throw _ => false
  end.

(** The three requests of an entry are all issued. *)
Definition issues_all_three (up : Upstream) (token : string)
  (item : WatchlistItem) : Prop :=
  In (quoteUrl token item) (requests up (enrichItem token item)) /\
  In (profileUrl token item) (requests up (enrichItem token item)) /\
  In (financialsUrl token item) (requests up (enrichItem token item)).

(** *** Sample data *)

Definition AAPL : WatchlistItem := mkItem "u1" "AAPL" "Apple Inc" 1000.
Definition MSFT : WatchlistItem := mkItem "u1" "MSFT" "Microsoft Corp" 2000.

Definition sample_body : Body :=
  mkBody (Some 123.4%float) (Some 2.5%float) (Some 2500%float)
         (Some (mkMetric (Some 31.256%float) (Some 28%float))).

Definition network_down : JsError := mkError None "fetch failed".

(** Every request about AAPL is refused; any other gets [sample_body]. *)
Definition sample_upstream : Upstream :=
  fun url =>
    if (url =? quoteUrl "key" AAPL)%string
       || (url =? profileUrl "key" AAPL)%string
       || (url =? financialsUrl "key" AAPL)%string
    then Throw network_down
    else Ret (Some sample_body).

Definition sample_db : Db := mkDb None true None [] [AAPL; MSFT] 3000.

Definition with_key : Env := mkEnv (Some "key") None.
Definition no_key : Env := mkEnv None None.

Definition sample_world (e : Env) : World :=
  mkWorld sample_db e sample_upstream [] [].

(** A world with an empty collection, and the one a first Add leaves. *)
Definition fresh_world : World :=
  mkWorld (mkDb None true None [] [] 3000) with_key sample_upstream [] [].

Definition once_added : World :=
  snd (addToWatchlist "u1" "aapl" "Apple Inc" fresh_world).

(** A user record of the identity store whose [id] is the sample user. *)
Definition sample_user : UserDoc := mkUser (Some "u1") None "ann@example.com".

Definition sample_world_users : World :=
  mkWorld (mkDb None true None [sample_user] [AAPL; MSFT] 3000)
          with_key sample_upstream [] [].

(** A signed-in session of the sample user. *)
Definition sample_session : res (option Session) :=
  Ret (Some (mkSession (Some (mkAuthUser "u1")))).

Definition store_lost : JsError := mkError None "connection refused".

(** The table as the page seeds it when no credential is configured. *)
Definition sample_view : View := mkView [basic MSFT; basic AAPL] None [].

(** *** Further notions *)

(** The documents of every pair but the given one, in store order. *)
Definition other_pairs (uid sym : string) (ds : list WatchlistItem)
  : list WatchlistItem :=
  filter (fun d => negb (same_pair uid sym d)) ds.

(** All three arguments of Add are non-empty. *)
Definition valid_add (u s co : string) : bool :=
  truthy_str u && truthy_str s && truthy_str co.

(** Both arguments of Remove are non-empty. *)
Definition valid_remove (u s : string) : bool :=
  truthy_str u && truthy_str s.

(** One of the three calls for the entry throws, as a test. *)
Definition calls_throw_b (up : Upstream) (token : string)
  (item : WatchlistItem) : bool :=
  match up (quoteUrl token item), up (profileUrl token item),
        up (financialsUrl token item) with
  | Ret _, Ret _, Ret _ => false
  | _, _, _ => true
  end.

(** The console line of the callback's [catch]. *)
Definition fetch_error_line (item : WatchlistItem) : string :=
  "Error fetching data for " ++ symbol item ++ ":".

(** The identifier [getWatchlistSymbolsByEmail] takes from a user record:
    [(user.id as string) || String(user._id || "")]. *)
Definition resolved_id (user : UserDoc) : string :=
  match user_id user with
  | Some id => if truthy_str id then id
               else match user__id user with Some i => i | None => "" end
  | None => match user__id user with Some i => i | None => "" end
  end.

(** The text starts with the given character. *)
Definition starts_with (ch : ascii) (text : string) : Prop :=
  exists rest, text = String ch rest.

(** [store_up] as a test. *)
Definition store_up_b (w : World) : bool :=
  match conn_error (db w), query_error (db w) with
  | None, None => true
  | _, _ => false
  end.

(** What List returns, read off the world. *)
Definition listed (u : string) (w : World) : list StockWithData :=
  if truthy_str u && store_up_b w
  then match usable_token (env w) with
       | None => map basic (entries_of u w)
       | Some token => map (enriched (upstream w) token) (entries_of u w)
       end
  else [].

(** *** Proof automation *)

(** Evaluates the monadic plumbing of an action on an explicit world. *)
Ltac run_action :=
  cbv beta iota zeta delta
    [try_catch bind connectToDatabase find_sorted find_symbols findOne_user
     create deleteOne query issue getenv console_error ret throw promise_all
     call_action set_db set_docs db env upstream console queries fst snd].

(** The same, on a world whose store is given field by field. *)
Ltac run_store :=
  cbv beta iota zeta delta
    [try_catch bind connectToDatabase find_sorted find_symbols findOne_user
     create deleteOne query issue getenv console_error ret throw promise_all
     call_action set_db set_docs db env upstream console queries fst snd
     conn_error connection_db query_error users docs clock].

(** *** The merge and the stored fields *)

Lemma entry_of_basic item : entry_of (basic item) = item.
Proof. destruct item; reflexivity. Qed.

Lemma entry_of_merge item q p f : entry_of (merge item q p f) = item.
Proof. destruct item; reflexivity. Qed.

Lemma bare_basic item : bare (basic item).
Proof. repeat split. Qed.

Lemma entry_of_enriched up token item : entry_of (enriched up token item) = item.
Proof.
  unfold enriched.
  destruct (up (quoteUrl token item)), (up (profileUrl token item)),
    (up (financialsUrl token item));
    auto using entry_of_basic, entry_of_merge.
Qed.

Lemma enriched_throw up token item :
  calls_throw up token item -> enriched up token item = basic item.
Proof.
  unfold enriched.
  intros [[e H] | [[e H] | [e H]]]; rewrite H.
  - reflexivity.
  - destruct (up (quoteUrl token item)); reflexivity.
  - destruct (up (quoteUrl token item)), (up (profileUrl token item));
      reflexivity.
Qed.

Lemma enriched_return up token item q p f :
  calls_return up token item q p f ->
  enriched up token item = merge item q p f.
Proof.
  unfold enriched. intros (Hq & Hp & Hf). now rewrite Hq, Hp, Hf.
Qed.

Lemma enriched_local up up' token item :
  same_answers up up' token item ->
  enriched up token item = enriched up' token item.
Proof. unfold enriched. intros (-> & -> & ->). reflexivity. Qed.

(** *** Running the callback *)

Lemma run_task_enrichItem up token item :
  fst (run_task up (enrichItem token item)) = Ret (enriched up token item).
Proof.
  unfold enrichItem, enriched, fetchJson. simpl.
  destruct (up (quoteUrl token item)); simpl; [| reflexivity].
  destruct (up (profileUrl token item)); simpl; [| reflexivity].
  destruct (up (financialsUrl token item)); reflexivity.
Qed.

Lemma promise_all_run_enrich up token l :
  fst (promise_all_run up (map (enrichItem token) l))
  = Ret (map (enriched up token) l).
Proof.
  induction l as [| a l IH]; [reflexivity |].
  cbn [map promise_all_run].
  pose proof (run_task_enrichItem up token a) as Ha.
  destruct (run_task up (enrichItem token a)) as [r ls].
  destruct (promise_all_run up (map (enrichItem token) l)) as [rs ls'].
  simpl in *. now rewrite Ha, IH.
Qed.

Lemma enriched_degrades up token l :
  degrades_per_symbol up token l (map (enriched up token) l).
Proof.
  repeat split.
  - apply List.length_map.
  - rewrite map_map. apply map_ext. intro a.
    change (sw_symbol (enriched up token a))
      with (symbol (entry_of (enriched up token a))).
    now rewrite entry_of_enriched.
  - intro Hthrow. rewrite nth_error_map, H. simpl.
    now rewrite enriched_throw.
  - intros q p f Hret. rewrite nth_error_map, H. simpl.
    now rewrite (enriched_return _ _ _ _ _ _ Hret).
Qed.

(** *** getUserWatchlist, step by step *)

Lemma getUserWatchlist_empty w : getUserWatchlist "" w = (Ret [], w).
Proof. reflexivity. Qed.

Lemma getUserWatchlist_up u w :
  truthy_str u = true -> store_up w ->
  fst (getUserWatchlist u w)
  = Ret (match usable_token (env w) with
         | None => map basic (entries_of u w)
         | Some token => map (enriched (upstream w) token) (entries_of u w)
         end).
Proof.
  intros Hu [Hc Hq]. unfold getUserWatchlist, entries_of. rewrite Hu.
  destruct w as [d e up con qs]. cbn [negb db env upstream] in *.
  run_action. rewrite Hc. run_action. rewrite Hq. run_action.
  destruct (usable_token e) as [token |]; [| reflexivity].
  run_action.
  pose proof (promise_all_run_enrich up token
    (sort_desc (filter (fun i => (userId i =? u)%string) (docs d)))) as H.
  destruct (promise_all_run up _) as [r ls]. cbn [fst] in *. now subst r.
Qed.

Lemma getUserWatchlist_down u w :
  truthy_str u = true -> ~ store_up w ->
  fst (getUserWatchlist u w) = Ret [].
Proof.
  intros Hu Hdown. unfold getUserWatchlist. rewrite Hu.
  destruct w as [d e up con qs]. unfold store_up in Hdown.
  cbn [negb db] in *. run_action.
  destruct (conn_error d) eqn:Hc; [reflexivity |].
  run_action.
  destruct (query_error d) eqn:Hq; [reflexivity |].
  exfalso. apply Hdown. split; reflexivity.
Qed.

Lemma getUserWatchlist_db u w : db (snd (getUserWatchlist u w)) = db w.
Proof.
  unfold getUserWatchlist. destruct (negb (truthy_str u)); [reflexivity |].
  destruct w as [d e up con qs]. run_action.
  destruct (conn_error d); [reflexivity |].
  run_action.
  destruct (query_error d); [reflexivity |].
  run_action.
  destruct (usable_token e); [| reflexivity].
  run_action.
  destruct (promise_all_run up _) as [[r | err] ls]; reflexivity.
Qed.

Lemma getUserWatchlist_total u w : exists rs, fst (getUserWatchlist u w) = Ret rs.
Proof.
  destruct (truthy_str u) eqn:Hu.
  - destruct (conn_error (db w)) eqn:Hc.
    + exists []. apply getUserWatchlist_down; [assumption |].
      intros [H _]. congruence.
    + destruct (query_error (db w)) eqn:Hq.
      * eexists. apply getUserWatchlist_down; [assumption |].
        intros [_ H]. congruence.
      * eexists. apply getUserWatchlist_up; [assumption | now split].
  - exists []. unfold getUserWatchlist. now rewrite Hu.
Qed.

(** Without a credential the action returns what the copy without the
    enrichment step returns. *)
Lemma getUserWatchlist_plain_agrees u w :
  usable_token (env w) = None ->
  fst (getUserWatchlist u w) = fst (getUserWatchlist_plain u w).
Proof.
  intro Htok. unfold getUserWatchlist, getUserWatchlist_plain.
  destruct (negb (truthy_str u)); [reflexivity |].
  destruct w as [[[err |] cdb [err' |] us ds ck] e up con qs];
    try reflexivity.
  cbn [env] in Htok. run_store. rewrite Htok. reflexivity.
Qed.

(** *** The sorted query *)

Lemma insert_desc_perm x l : Permutation (insert_desc x l) (x :: l).
Proof.
  induction l as [| y l IH]; simpl; [reflexivity |].
  destruct (addedAt y <=? addedAt x); [reflexivity |].
  rewrite IH. apply perm_swap.
Qed.

Lemma sort_desc_perm l : Permutation (sort_desc l) l.
Proof.
  induction l as [| x l IH]; simpl; [constructor |].
  rewrite insert_desc_perm. now constructor.
Qed.

Lemma insert_desc_sorted x l :
  StronglySorted (fun a b => addedAt b <= addedAt a) l ->
  StronglySorted (fun a b => addedAt b <= addedAt a) (insert_desc x l).
Proof.
  induction 1 as [| y l Hs IH Hy]; simpl.
  - repeat constructor.
  - destruct (addedAt y <=? addedAt x) eqn:Hle.
    + apply Z.leb_le in Hle. constructor.
      * now constructor.
      * constructor; [assumption |].
        eapply Forall_impl; [| exact Hy]. simpl. intros; lia.
    + apply Z.leb_gt in Hle. constructor; [assumption |].
      eapply Permutation_Forall.
      * symmetry. apply insert_desc_perm.
      * constructor; [lia | assumption].
Qed.

Lemma sort_desc_sorted l :
  StronglySorted (fun a b => addedAt b <= addedAt a) (sort_desc l).
Proof.
  induction l; simpl; [constructor | now apply insert_desc_sorted].
Qed.

Lemma map_entry_of_basic l : map entry_of (map basic l) = l.
Proof.
  rewrite map_map. rewrite <- (map_id l) at 2. apply map_ext.
  apply entry_of_basic.
Qed.

Lemma map_entry_of_enriched up token l :
  map entry_of (map (enriched up token) l) = l.
Proof.
  rewrite map_map. rewrite <- (map_id l) at 2. apply map_ext.
  apply entry_of_enriched.
Qed.

(** With the store answering, the stored fields of the returned records
    are the user's entries, in the order of the sorted query. *)
Lemma getUserWatchlist_entries u w rs :
  truthy_str u = true -> store_up w ->
  fst (getUserWatchlist u w) = Ret rs ->
  map entry_of rs = entries_of u w.
Proof.
  intros Hu Hup H. rewrite (getUserWatchlist_up u w Hu Hup) in H.
  injection H as <-.
  destruct (usable_token (env w));
    auto using map_entry_of_basic, map_entry_of_enriched.
Qed.

Lemma sorted_by_entry rs :
  StronglySorted (fun a b => addedAt b <= addedAt a) (map entry_of rs) ->
  StronglySorted (fun a b => sw_addedAt b <= sw_addedAt a) rs.
Proof.
  induction rs as [| r rs IH]; simpl; intro H; [constructor |].
  inversion H as [| ? ? Hs Hall]; subst. constructor; [auto |].
  rewrite Forall_map in Hall. exact Hall.
Qed.

(** *** Per-symbol degradation *)

(** C1.  When the three calls for some entries throw and those for the
    others return, the enrichment still yields one record per entry, in the
    order of the entries: the stored fields alone where a call threw, the
    merge of the entry's own answers elsewhere.  This holds for the
    enrichment of any list of entries, and so for what [getUserWatchlist]
    returns, which is a returned list and not an error.  The record of an
    entry depends on the answers to its own three calls only: whatever
    happens to the calls of the other entries leaves it as it is. *)
Theorem C1_failing_symbol_degrades :
  (forall up token entries,
     exists rs,
       fst (promise_all_run up (map (enrichItem token) entries)) = Ret rs /\
       degrades_per_symbol up token entries rs) /\
  (forall u w token,
     truthy_str u = true -> store_up w -> usable_token (env w) = Some token ->
     exists rs,
       fst (getUserWatchlist u w) = Ret rs /\
       degrades_per_symbol (upstream w) token (entries_of u w) rs /\
       forall i item, nth_error (entries_of u w) i = Some item ->
         calls_throw (upstream w) token item ->
         exists r, nth_error rs i = Some r /\ entry_of r = item /\ bare r) /\
  (forall up up' token entries rs rs',
     fst (promise_all_run up (map (enrichItem token) entries)) = Ret rs ->
     fst (promise_all_run up' (map (enrichItem token) entries)) = Ret rs' ->
     forall i item, nth_error entries i = Some item ->
       same_answers up up' token item ->
       nth_error rs i = nth_error rs' i).
Proof.
  split; [| split].
  - intros up token entries. eexists. split.
    + apply promise_all_run_enrich.
    + apply enriched_degrades.
  - intros u w token Hu Hup Htok. eexists. split; [| split].
    + rewrite (getUserWatchlist_up u w Hu Hup), Htok. reflexivity.
    + apply enriched_degrades.
    + intros i item Hi Hthrow. exists (basic item). repeat split.
      * now apply (enriched_degrades (upstream w) token (entries_of u w)).
      * apply entry_of_basic.
  - intros up up' token entries rs rs' Hrs Hrs' i item Hi Hsame.
    rewrite promise_all_run_enrich in Hrs, Hrs'.
    injection Hrs as <-. injection Hrs' as <-.
    rewrite !nth_error_map, Hi. cbn. f_equal. now apply enriched_local.
Qed.

Lemma C1_failing_symbol_degrades_witness :
  exists rs,
    fst (getUserWatchlist "u1" (sample_world with_key)) = Ret rs /\
    degrades_per_symbol sample_upstream "key"
      (entries_of "u1" (sample_world with_key)) rs /\
    forall i item,
      nth_error (entries_of "u1" (sample_world with_key)) i = Some item ->
      calls_throw sample_upstream "key" item ->
      exists r, nth_error rs i = Some r /\ entry_of r = item /\ bare r.
Proof.
  apply (proj1 (proj2 C1_failing_symbol_degrades) "u1"
           (sample_world with_key) "key").
  - reflexivity.
  - split; reflexivity.
  - reflexivity.
Defined.

(** *** No credential *)

(** C2.  When no API credential is configured (the token is undefined or
    empty), [getUserWatchlist] returns, for the user's entries in their
    order, records that carry the stored fields and none of the numeric or
    formatted ones.  The outcome is a returned list. *)
Theorem C2_no_credential_basic_fields :
  forall u w,
    truthy_str u = true -> store_up w -> usable_token (env w) = None ->
    exists rs,
      fst (getUserWatchlist u w) = Ret rs /\
      rs = map basic (entries_of u w) /\
      map entry_of rs = entries_of u w /\
      Forall bare rs.
Proof.
  intros u w Hu Hup Htok. eexists. split; [| split; [reflexivity | split]].
  - rewrite (getUserWatchlist_up u w Hu Hup), Htok. reflexivity.
  - apply map_entry_of_basic.
  - apply Forall_map, Forall_forall. intros item _. apply bare_basic.
Qed.

Lemma C2_no_credential_basic_fields_witness :
  exists rs,
    fst (getUserWatchlist "u1" (sample_world no_key)) = Ret rs /\
    rs = map basic (entries_of "u1" (sample_world no_key)) /\
    map entry_of rs = entries_of "u1" (sample_world no_key) /\
    Forall bare rs.
Proof.
  apply (C2_no_credential_basic_fields "u1" (sample_world no_key)).
  - reflexivity.
  - split; reflexivity.
  - reflexivity.
Defined.

(** *** Formatting *)

Lemma string_length_append (a b : string) :
  String.length (a ++ b) = (String.length a + String.length b)%nat.
Proof. induction a; simpl; [reflexivity | now rewrite IHa]. Qed.

Lemma string_append_assoc (a b d : string) : (a ++ b) ++ d = a ++ (b ++ d).
Proof. induction a; simpl; [reflexivity | now rewrite IHa]. Qed.

Lemma length_zeros k : String.length (zeros k) = k.
Proof. induction k; simpl; [reflexivity | now rewrite IHk]. Qed.

Lemma substring_length (s : string) :
  forall n m, (n + m <= String.length s)%nat ->
              String.length (substring n m s) = m.
Proof.
  induction s as [| ch s IH]; intros n m H; simpl in H.
  - destruct n, m; simpl; lia.
  - destruct n as [| n]; simpl.
    + destruct m as [| m]; simpl; [reflexivity |].
      rewrite IH; [reflexivity | lia].
    + apply IH. lia.
Qed.

Lemma place_point_two_decimals ds : two_decimals (place_point ds 2).
Proof.
  unfold place_point.
  set (ds' := if Nat.leb (String.length ds) 2
              then zeros (2 + 1 - String.length ds) ++ ds else ds).
  assert (Hlen : (2 <= String.length ds')%nat).
  { subst ds'. destruct (Nat.leb (String.length ds) 2) eqn:Hk.
    - apply Nat.leb_le in Hk.
      rewrite string_length_append, length_zeros. lia.
    - apply Nat.leb_gt in Hk. lia. }
  eexists _, _. split; [reflexivity |].
  apply substring_length. lia.
Qed.

Lemma two_decimals_prefix a s : two_decimals s -> two_decimals (a ++ s).
Proof.
  intros (x & y & -> & Hy). exists (a ++ x), y. split; [| exact Hy].
  now rewrite string_append_assoc.
Qed.

(** Within the fixed-notation range, [toFixed(2)] ends in a point and two
    digits' worth of characters. *)
Lemma toFixed_two_decimals x :
  fixed_range x = true -> two_decimals (toFixed x 2).
Proof.
  unfold fixed_range, toFixed.
  destruct (Prim2SF x) as [sg | sg | | sg m e]; try discriminate; intro H.
  - apply place_point_two_decimals.
  - apply negb_true_iff in H. rewrite H.
    apply two_decimals_prefix, place_point_two_decimals.
Qed.

(** C3.  The formats of the merge: the listed examples; the magnitude
    thresholds of the market capitalization (tested as the code tests
    them: [>= 1e3], then [>= 1], else the value times [1e3]); the P/E ratio
    taken from [peExclExtraTTM] when it is there (and not zero), from
    [peNormalizedAnnual] when it is absent, and printed by [toFixed(2)],
    which ends in two decimals for every value of magnitude below 10^21. *)
Theorem C3_formatting :
  (forall item q p f,
     opt_get q c = Some 123.4%float ->
     priceFormatted (merge item q p f) = Some "$123.40") /\
  (forall item q p f,
     opt_get q dp = Some 2.5%float ->
     changeFormatted (merge item q p f) = Some "+2.50%") /\
  (forall item q p f,
     opt_get q dp = Some (-1.2)%float ->
     changeFormatted (merge item q p f) = Some "-1.20%") /\
  (forall item q p f,
     opt_get p marketCapitalization = Some 2500%float ->
     marketCap (merge item q p f) = Some "$2.50T") /\
  (forall item q p f,
     opt_get p marketCapitalization = Some 45%float ->
     marketCap (merge item q p f) = Some "$45.00B") /\
  (forall item q p f,
     opt_get p marketCapitalization = Some 0.5%float ->
     marketCap (merge item q p f) = Some "$500.00M") /\
  (forall item q p f v,
     opt_get p marketCapitalization = Some v -> truthy v = true ->
     (PrimFloat.leb 1e3 v = true ->
      marketCap (merge item q p f)
      = Some ("$" ++ toFixed (v / 1e3) 2 ++ "T")) /\
     (PrimFloat.leb 1e3 v = false -> PrimFloat.leb 1 v = true ->
      marketCap (merge item q p f) = Some ("$" ++ toFixed v 2 ++ "B")) /\
     (PrimFloat.leb 1e3 v = false -> PrimFloat.leb 1 v = false ->
      marketCap (merge item q p f)
      = Some ("$" ++ toFixed (v * 1e3) 2 ++ "M"))) /\
  (forall item q p f m v,
     opt_get f metric = Some m ->
     peExclExtraTTM m = Some v -> truthy v = true ->
     peRatio (merge item q p f) = Some (toFixed v 2)) /\
  (forall item q p f m v,
     opt_get f metric = Some m ->
     peExclExtraTTM m = None ->
     peNormalizedAnnual m = Some v -> truthy v = true ->
     peRatio (merge item q p f) = Some (toFixed v 2)) /\
  (forall v, fixed_range v = true -> two_decimals (toFixed v 2)).
Proof.
  repeat match goal with |- _ /\ _ => split end;
    try (intros item q p f H; unfold merge; cbn [priceFormatted
           changeFormatted marketCap]; rewrite H; vm_compute; reflexivity).
  - intros item q p f v H Hv. unfold merge. cbn [marketCap]. rewrite H.
    unfold when_truthy, formatMarketCap. rewrite Hv.
    repeat split; intros; repeat match goal with
      | E : PrimFloat.leb _ _ = _ |- _ => rewrite E; clear E end; reflexivity.
  - intros item q p f m v Hm He Hv. unfold merge, peRatioValue.
    cbn [peRatio]. rewrite Hm. cbn [opt_get]. rewrite He.
    unfold or_else, truthy_opt, when_truthy. now rewrite !Hv.
  - intros item q p f m v Hm He Hn Hv. unfold merge, peRatioValue.
    cbn [peRatio]. rewrite Hm. cbn [opt_get]. rewrite He, Hn.
    unfold or_else, truthy_opt, when_truthy. now rewrite Hv.
  - apply toFixed_two_decimals.
Qed.

Lemma C3_formatting_witness :
  priceFormatted (merge MSFT (Some sample_body) None None) = Some "$123.40"
  /\ two_decimals (toFixed 31.256 2).
Proof.
  split.
  - apply (proj1 C3_formatting MSFT (Some sample_body) None None).
    reflexivity.
  - apply (proj2 (proj2 (proj2 (proj2 (proj2 (proj2 (proj2 (proj2 (proj2
             C3_formatting))))))))).
    reflexivity.
Defined.

(** C10, the claim as stated fails.  With [peExclExtraTTM] exactly zero and
    [peNormalizedAnnual] 28 the formatted P/E is there ("28.00"): the [||]
    goes on to the second figure.  And a zero market capitalization is not
    exposed as returned: the record built from it is the record built from
    an answer without the value, there being no raw field for it. *)
Lemma C10_zero_pe_falls_back :
  peRatio (merge AAPL None None
             (Some (mkBody None None None
                      (Some (mkMetric (Some 0%float) (Some 28%float))))))
  = Some "28.00" /\
  merge AAPL None (Some (mkBody None None (Some 0%float) None)) None
  = merge AAPL None (Some (mkBody None None None None)) None.
Proof. split; reflexivity. Qed.

(** C10, amended.  A price or a percent change of exactly zero is exposed
    in its raw field ([currentPrice], [changePercent]) while its formatted
    field is absent.  A market capitalization of exactly zero leaves
    [marketCap] absent, and the record, which has no raw field for it, is
    the one built from an answer without the value.  [peRatio] is absent
    when the selected P/E value, [peExclExtraTTM] or else (that one being
    zero or absent) [peNormalizedAnnual], is zero or absent, and the
    record is then the one built from an answer without P/E figures; a zero
    [peExclExtraTTM] beside a [peNormalizedAnnual] that is a number other
    than zero is formatted from the latter.  An absent formatted field is
    what an answer without the value gives, and what the record of a failed
    call has. *)
Theorem C10_zero_leaves_formatted_absent :
  forall item q p f,
    (opt_get q c = Some 0%float ->
     currentPrice (merge item q p f) = Some 0%float /\
     priceFormatted (merge item q p f) = None) /\
    (opt_get q dp = Some 0%float ->
     changePercent (merge item q p f) = Some 0%float /\
     changeFormatted (merge item q p f) = None) /\
    (opt_get p marketCapitalization = Some 0%float ->
     marketCap (merge item q p f) = None /\
     forall p', opt_get p' marketCapitalization = None ->
                merge item q p f = merge item q p' f) /\
    (peRatioValue f = Some 0%float ->
     peRatio (merge item q p f) = None /\
     forall f', peRatioValue f' = None ->
                merge item q p f = merge item q p f') /\
    (forall m, opt_get f metric = Some m ->
       peExclExtraTTM m = Some 0%float \/ peExclExtraTTM m = None ->
       peNormalizedAnnual m = Some 0%float \/ peNormalizedAnnual m = None ->
       peRatio (merge item q p f) = None) /\
    (forall m v, opt_get f metric = Some m ->
       peExclExtraTTM m = Some 0%float ->
       peNormalizedAnnual m = Some v -> truthy v = true ->
       peRatio (merge item q p f) = Some (toFixed v 2)) /\
    (opt_get q c = None -> priceFormatted (merge item q p f) = None) /\
    (opt_get q dp = None -> changeFormatted (merge item q p f) = None) /\
    (opt_get p marketCapitalization = None ->
     marketCap (merge item q p f) = None) /\
    (peRatioValue f = None -> peRatio (merge item q p f) = None) /\
    bare (basic item).
Proof.
  intros item q p f. unfold merge.
  cbn [currentPrice changePercent priceFormatted changeFormatted marketCap
       peRatio].
  repeat match goal with |- _ /\ _ => split end;
    try (intros H; rewrite H; reflexivity);
    try (intros H; rewrite H; split; reflexivity).
  - intros Hp. rewrite Hp. split; [reflexivity |].
    intros p' Hp'. now rewrite Hp'.
  - intros Hf. rewrite Hf. split; [reflexivity |].
    intros f' Hf'. now rewrite Hf'.
  - intros m Hm He Hn. unfold peRatioValue. rewrite Hm. cbn [opt_get].
    destruct He as [He | He], Hn as [Hn | Hn]; rewrite He, Hn; reflexivity.
  - intros m v Hm He Hn Hv. unfold peRatioValue. rewrite Hm. cbn [opt_get].
    rewrite He, Hn. unfold or_else, truthy_opt, when_truthy.
    change (truthy 0) with false. cbn iota. now rewrite Hv.
  - apply bare_basic.
Qed.

Lemma C10_zero_leaves_formatted_absent_witness :
  (currentPrice (merge AAPL (Some (mkBody (Some 0%float) None None None))
                   None None) = Some 0%float /\
   priceFormatted (merge AAPL (Some (mkBody (Some 0%float) None None None))
                     None None) = None) /\
  peRatio (merge AAPL None None
             (Some (mkBody None None None
                      (Some (mkMetric (Some 0%float) (Some 28%float))))))
  = Some (toFixed 28 2).
Proof.
  split.
  - apply (proj1 (C10_zero_leaves_formatted_absent AAPL
                    (Some (mkBody (Some 0%float) None None None)) None None)).
    reflexivity.
  - apply (proj1 (proj2 (proj2 (proj2 (proj2 (proj2
             (C10_zero_leaves_formatted_absent AAPL None None
                (Some (mkBody None None None
                         (Some (mkMetric (Some 0%float) (Some 28%float)))))))))))
             (mkMetric (Some 0%float) (Some 28%float)) 28%float).
    + reflexivity.
    + reflexivity.
    + reflexivity.
    + reflexivity.
Defined.

(** *** Ordering *)

(** C4.  For every user identifier and every world, [getUserWatchlist]
    returns a list whose [addedAt] never increases; with the store
    answering, the stored fields of the returned records are exactly the
    user's documents (a permutation of them) in the order of the sorted
    query, whichever branch produced the records.  With AAPL added at [t1]
    and MSFT at [t2 > t1], in either order in the collection, MSFT comes
    first. *)
Theorem C4_most_recent_first :
  (forall u w,
     exists rs,
       fst (getUserWatchlist u w) = Ret rs /\
       recent_first rs /\
       (truthy_str u = true -> store_up w ->
        map entry_of rs = entries_of u w /\
        Permutation (map entry_of rs)
          (filter (fun i => (userId i =? u)%string) (docs (db w))))) /\
  (forall u w c1 c2 t1 t2,
     truthy_str u = true -> store_up w -> t1 < t2 ->
     docs (db w) = [mkItem u "AAPL" c1 t1; mkItem u "MSFT" c2 t2] \/
     docs (db w) = [mkItem u "MSFT" c2 t2; mkItem u "AAPL" c1 t1] ->
     exists rs,
       fst (getUserWatchlist u w) = Ret rs /\
       map sw_symbol rs = ["MSFT"; "AAPL"]).
Proof.
  split.
  - intros u w. destruct (getUserWatchlist_total u w) as [rs Hrs].
    exists rs. split; [exact Hrs |].
    assert (Hcase : (truthy_str u = true /\ store_up w) \/ rs = []).
    { destruct (truthy_str u) eqn:Hu.
      - destruct (conn_error (db w)) eqn:Hc.
        + right. rewrite getUserWatchlist_down in Hrs;
            [congruence | assumption | intros [H _]; congruence].
        + destruct (query_error (db w)) eqn:Hq.
          * right. rewrite getUserWatchlist_down in Hrs;
              [congruence | assumption | intros [_ H]; congruence].
          * left. repeat split; assumption.
      - right. unfold getUserWatchlist in Hrs. rewrite Hu in Hrs.
        cbn in Hrs. congruence. }
    split.
    + destruct Hcase as [[Hu Hup] | ->]; [| constructor].
      apply sorted_by_entry.
      rewrite (getUserWatchlist_entries u w rs Hu Hup Hrs).
      apply sort_desc_sorted.
    + intros Hu Hup.
      rewrite (getUserWatchlist_entries u w rs Hu Hup Hrs).
      split; [reflexivity | apply sort_desc_perm].
  - intros u w c1 c2 t1 t2 Hu Hup Hlt Hdocs.
    destruct (getUserWatchlist_total u w) as [rs Hrs].
    exists rs. split; [exact Hrs |].
    pose proof (getUserWatchlist_entries u w rs Hu Hup Hrs) as He.
    change (map sw_symbol rs) with (map (fun r => symbol (entry_of r)) rs).
    rewrite <- (map_map entry_of symbol), He. unfold entries_of.
    destruct Hdocs as [-> | ->]; cbn [filter userId];
      rewrite String.eqb_refl; cbn [sort_desc insert_desc addedAt].
    + destruct (t2 <=? t1) eqn:Hle; [apply Z.leb_le in Hle; lia |].
      reflexivity.
    + destruct (t1 <=? t2) eqn:Hle; [| apply Z.leb_gt in Hle; lia].
      reflexivity.
Qed.

Lemma C4_most_recent_first_witness :
  exists rs,
    fst (getUserWatchlist "u1" (sample_world with_key)) = Ret rs /\
    map sw_symbol rs = ["MSFT"; "AAPL"].
Proof.
  apply (proj2 C4_most_recent_first "u1" (sample_world with_key)
           "Apple Inc" "Microsoft Corp" 1000 2000).
  - reflexivity.
  - split; reflexivity.
  - reflexivity.
  - left. reflexivity.
Defined.

(** *** The collection under Add and Remove *)

Lemma same_pair_true uid sym d :
  same_pair uid sym d = true <-> (userId d, symbol d) = (uid, sym).
Proof.
  unfold same_pair. rewrite andb_true_iff, !String.eqb_eq.
  split; [intros [-> ->]; reflexivity | intros [= -> ->]; auto].
Qed.

Lemma existsb_same_pair uid sym ds :
  existsb (same_pair uid sym) ds = true
  <-> In (uid, sym) (map (fun d => (userId d, symbol d)) ds).
Proof.
  rewrite existsb_exists, in_map_iff. split.
  - intros (d & Hin & Hp). exists d. split; [| exact Hin].
    now apply same_pair_true.
  - intros (d & Hp & Hin). exists d. split; [exact Hin |].
    now apply same_pair_true.
Qed.

Lemma unique_pairs_add uid sym comp t ds :
  unique_pairs ds -> existsb (same_pair uid sym) ds = false ->
  unique_pairs (ds ++ [mkItem uid sym comp t]).
Proof.
  unfold unique_pairs. intros Hnd Hex. rewrite map_app. simpl.
  apply NoDup_app; [exact Hnd | repeat constructor; intros [] |].
  intros pr Hin [<- | []]. apply existsb_same_pair in Hin. congruence.
Qed.

Lemma remove_first_absent p ds :
  existsb p ds = false -> remove_first p ds = ds.
Proof.
  induction ds as [| d ds IH]; simpl; [reflexivity |].
  destruct (p d); simpl; [discriminate |]. intro H. now rewrite IH.
Qed.

Lemma remove_first_incl p ds d : In d (remove_first p ds) -> In d ds.
Proof.
  induction ds as [| x ds IH]; simpl; [tauto |].
  destruct (p x); simpl; tauto.
Qed.

Lemma unique_pairs_remove p ds :
  unique_pairs ds -> unique_pairs (remove_first p ds).
Proof.
  unfold unique_pairs. induction ds as [| x ds IH]; simpl; intro H;
    [constructor |].
  inversion H as [| ? ? Hnotin Hnd]; subst.
  destruct (p x); [exact Hnd |]. simpl. constructor; [| auto].
  rewrite in_map_iff. intros (d & Hd & Hin). apply Hnotin.
  rewrite in_map_iff. exists d. split; [exact Hd |].
  eapply remove_first_incl; eauto.
Qed.

(** With unique pairs, removing the first match removes every match. *)
Lemma remove_first_gone uid sym ds :
  unique_pairs ds ->
  existsb (same_pair uid sym) (remove_first (same_pair uid sym) ds) = false.
Proof.
  unfold unique_pairs. induction ds as [| x ds IH]; simpl; intro H;
    [reflexivity |].
  inversion H as [| ? ? Hnotin Hnd]; subst.
  destruct (same_pair uid sym x) eqn:Hx.
  - apply same_pair_true in Hx. rewrite Hx in Hnotin.
    destruct (existsb (same_pair uid sym) ds) eqn:Hex; [| reflexivity].
    apply existsb_same_pair in Hex. contradiction.
  - simpl. rewrite Hx. simpl. auto.
Qed.

(** With unique pairs, a pair that is there is there once. *)
Lemma unique_pairs_once uid sym ds :
  unique_pairs ds -> existsb (same_pair uid sym) ds = true ->
  List.length (filter (same_pair uid sym) ds) = 1%nat.
Proof.
  unfold unique_pairs. induction ds as [| x ds IH]; simpl; intros H Hex;
    [discriminate |].
  inversion H as [| ? ? Hnotin Hnd]; subst.
  destruct (same_pair uid sym x) eqn:Hx; simpl.
  - f_equal. apply same_pair_true in Hx. rewrite Hx in Hnotin.
    destruct (filter (same_pair uid sym) ds) as [| y l] eqn:Hf;
      [reflexivity |].
    exfalso. apply Hnotin. apply existsb_same_pair, existsb_exists.
    exists y. apply filter_In. rewrite Hf. now left.
  - simpl in Hex. auto.
Qed.

Lemma filter_length_perm {A : Type} (p : A -> bool) l l' :
  Permutation l l' -> List.length (filter p l) = List.length (filter p l').
Proof.
  induction 1; simpl; try congruence.
  - destruct (p x); simpl; congruence.
  - destruct (p x), (p y); reflexivity.
Qed.

Lemma filter_filter_pair uid sym ds :
  filter (fun i => (symbol i =? sym)%string)
         (filter (fun i => (userId i =? uid)%string) ds)
  = filter (same_pair uid sym) ds.
Proof.
  induction ds as [| d ds IH]; [reflexivity |].
  cbn [filter]. rewrite <- IH. unfold same_pair.
  destruct (userId d =? uid)%string; [| reflexivity].
  cbn [filter andb]. destruct (symbol d =? sym)%string; reflexivity.
Qed.

Lemma filter_map_length {A B : Type} (g : A -> B) (p : B -> bool) l :
  List.length (filter (fun a => p (g a)) l)
  = List.length (filter p (map g l)).
Proof.
  induction l as [| a l IH]; simpl; [reflexivity |].
  destruct (p (g a)); simpl; now rewrite IH.
Qed.

(** What List shows for a pair is what the collection holds for it. *)
Lemma listed_count u sym w rs :
  truthy_str u = true -> store_up w ->
  fst (getUserWatchlist u w) = Ret rs ->
  List.length (filter (fun r => (sw_symbol r =? sym)%string) rs)
  = List.length (filter (same_pair u sym) (docs (db w))).
Proof.
  intros Hu Hup Hrs.
  rewrite (filter_map_length entry_of (fun i => (symbol i =? sym)%string)).
  rewrite (getUserWatchlist_entries u w rs Hu Hup Hrs). unfold entries_of.
  rewrite (filter_length_perm _ _ _ (sort_desc_perm _)).
  now rewrite filter_filter_pair.
Qed.

(** *** addToWatchlist and removeFromWatchlist, step by step *)

Lemma addToWatchlist_present u s co w :
  truthy_str u = true -> truthy_str s = true -> truthy_str co = true ->
  store_up w ->
  existsb (same_pair u (toUpperCase s)) (docs (db w)) = true ->
  fst (addToWatchlist u s co w)
  = Ret (mkResult false "Stock already in watchlist")
  /\ db (snd (addToWatchlist u s co w)) = db w.
Proof.
  intros Hu Hs Hco [Hc Hq] Hex. unfold addToWatchlist.
  rewrite Hu, Hs, Hco. destruct w as [[ce cdb qe us ds ck] e up con qs].
  cbn in Hc, Hq, Hex. subst ce qe. cbn [negb orb]. run_action.
  cbn [conn_error query_error docs]. rewrite Hex. split; reflexivity.
Qed.

Lemma addToWatchlist_absent u s co w :
  truthy_str u = true -> truthy_str s = true -> truthy_str co = true ->
  store_up w ->
  existsb (same_pair u (toUpperCase s)) (docs (db w)) = false ->
  fst (addToWatchlist u s co w) = Ret (mkResult true "Added to watchlist")
  /\ db (snd (addToWatchlist u s co w))
     = set_docs (docs (db w)
                 ++ [mkItem u (toUpperCase s) co (clock (db w))])%list (db w).
Proof.
  intros Hu Hs Hco [Hc Hq] Hex. unfold addToWatchlist.
  rewrite Hu, Hs, Hco. destruct w as [[ce cdb qe us ds ck] e up con qs].
  cbn in Hc, Hq, Hex. subst ce qe. cbn [negb orb]. run_action.
  cbn [conn_error query_error docs]. rewrite Hex. split; reflexivity.
Qed.

(** In every world, Add leaves the store as it is, or reports success and
    appends one entry whose pair was not there; it reports success only on
    non-empty arguments. *)
Lemma addToWatchlist_docs u s co w :
  db (snd (addToWatchlist u s co w)) = db w \/
  (existsb (same_pair u (toUpperCase s)) (docs (db w)) = false /\
   success_of (fst (addToWatchlist u s co w)) = true /\
   truthy_str u = true /\ truthy_str s = true /\ truthy_str co = true /\
   db (snd (addToWatchlist u s co w))
   = set_docs (docs (db w)
               ++ [mkItem u (toUpperCase s) co (clock (db w))])%list (db w)).
Proof.
  unfold addToWatchlist.
  destruct (truthy_str u); [| left; reflexivity].
  destruct (truthy_str s); [| left; reflexivity].
  destruct (truthy_str co); [| left; reflexivity].
  cbn [negb orb].
  destruct w as [[[err |] cdb qe us ds ck] e up con qs].
  { left. run_store.
    destruct (match code err with Some n => n =? 11000
                             | None => false end); reflexivity. }
  destruct qe as [err |].
  { left. run_store.
    destruct (match code err with Some n => n =? 11000
                             | None => false end); reflexivity. }
  run_store.
  destruct (existsb (same_pair u (toUpperCase s)) ds) eqn:Hex.
  - left. reflexivity.
  - right. repeat split.
Qed.

Lemma removeFromWatchlist_present u s w :
  truthy_str u = true -> truthy_str s = true -> store_up w ->
  existsb (same_pair u (toUpperCase s)) (docs (db w)) = true ->
  fst (removeFromWatchlist u s w)
  = Ret (mkResult true "Removed from watchlist")
  /\ db (snd (removeFromWatchlist u s w))
     = set_docs (remove_first (same_pair u (toUpperCase s)) (docs (db w)))
                (db w).
Proof.
  intros Hu Hs [Hc Hq] Hex. unfold removeFromWatchlist. rewrite Hu, Hs.
  destruct w as [[ce cdb qe us ds ck] e up con qs].
  cbn in Hc, Hq, Hex. subst ce qe. cbn [negb orb]. run_store.
  rewrite Hex. split; reflexivity.
Qed.

Lemma removeFromWatchlist_absent u s w :
  truthy_str u = true -> truthy_str s = true -> store_up w ->
  existsb (same_pair u (toUpperCase s)) (docs (db w)) = false ->
  fst (removeFromWatchlist u s w)
  = Ret (mkResult false "Stock not found in watchlist")
  /\ db (snd (removeFromWatchlist u s w)) = db w.
Proof.
  intros Hu Hs [Hc Hq] Hex. unfold removeFromWatchlist. rewrite Hu, Hs.
  destruct w as [[ce cdb qe us ds ck] e up con qs].
  cbn in Hc, Hq, Hex. subst ce qe. cbn [negb orb]. run_store.
  rewrite Hex. split; reflexivity.
Qed.

(** In every world, Remove leaves the store as it is, or reports success
    and removes the entry of the pair; it reports success only on valid
    arguments, with the store answering and the pair there. *)
Lemma removeFromWatchlist_docs u s w :
  (success_of (fst (removeFromWatchlist u s w)) = false /\
   db (snd (removeFromWatchlist u s w)) = db w) \/
  (success_of (fst (removeFromWatchlist u s w)) = true /\
   truthy_str u = true /\ truthy_str s = true /\ store_up w /\
   existsb (same_pair u (toUpperCase s)) (docs (db w)) = true /\
   db (snd (removeFromWatchlist u s w))
   = set_docs (remove_first (same_pair u (toUpperCase s)) (docs (db w)))
              (db w)).
Proof.
  unfold removeFromWatchlist, store_up.
  destruct (truthy_str u); [| left; split; reflexivity].
  destruct (truthy_str s); [| left; split; reflexivity].
  cbn [negb orb].
  destruct w as [[[err |] cdb qe us ds ck] e up con qs];
    [left; split; reflexivity |].
  destruct qe as [err |]; [left; split; reflexivity |].
  run_store.
  destruct (existsb (same_pair u (toUpperCase s)) ds) eqn:Hex.
  - right. repeat split.
  - left. split; reflexivity.
Qed.

(** *** getWatchlistSymbolsByEmail, step by step *)

Lemma getWatchlistSymbolsByEmail_db em w :
  db (snd (getWatchlistSymbolsByEmail em w)) = db w.
Proof.
  unfold getWatchlistSymbolsByEmail.
  destruct (negb (truthy_str em)); [reflexivity |].
  destruct w as [[[err |] cdb qe us ds ck] e up con qs]; [reflexivity |].
  destruct cdb; [| reflexivity].
  destruct qe as [err |]; [reflexivity |].
  run_store. cbn [negb]. run_store.
  destruct (find (fun u => (user_email u =? em)%string) us) as [usr |];
    [| reflexivity].
  match goal with
  | |- context [if negb (truthy_str ?x) then _ else _] =>
      destruct (negb (truthy_str x))
  end; reflexivity.
Qed.

Lemma getWatchlistSymbolsByEmail_total em w :
  exists l, fst (getWatchlistSymbolsByEmail em w) = Ret l.
Proof.
  unfold getWatchlistSymbolsByEmail.
  destruct (negb (truthy_str em)); [now eexists |].
  destruct w as [[[err |] cdb qe us ds ck] e up con qs]; [now eexists |].
  destruct cdb; [| now eexists].
  destruct qe as [err |]; [now eexists |].
  run_store. cbn [negb]. run_store.
  destruct (find (fun u => (user_email u =? em)%string) us) as [usr |];
    [| now eexists].
  match goal with
  | |- context [if negb (truthy_str ?x) then _ else _] =>
      destruct (negb (truthy_str x))
  end; now eexists.
Qed.

Lemma getWatchlistSymbolsByEmail_down em w :
  ~ (store_up w /\ connection_db (db w) = true) ->
  fst (getWatchlistSymbolsByEmail em w) = Ret [].
Proof.
  unfold getWatchlistSymbolsByEmail, store_up. intro Hdown.
  destruct (negb (truthy_str em)); [reflexivity |].
  destruct w as [[[err |] cdb qe us ds ck] e up con qs]; [reflexivity |].
  destruct cdb; [| reflexivity].
  destruct qe as [err |]; [reflexivity |].
  exfalso. apply Hdown. repeat split.
Qed.

Lemma addToWatchlist_total u s co w :
  exists r, fst (addToWatchlist u s co w) = Ret r.
Proof.
  unfold addToWatchlist.
  destruct (negb (truthy_str u) || negb (truthy_str s)
            || negb (truthy_str co)); [now eexists |].
  destruct w as [[[err |] cdb qe us ds ck] e up con qs].
  { run_store.
    destruct (match code err with Some n => n =? 11000
                             | None => false end); now eexists. }
  destruct qe as [err |].
  { run_store.
    destruct (match code err with Some n => n =? 11000
                             | None => false end); now eexists. }
  run_store.
  destruct (existsb (same_pair u (toUpperCase s)) ds); now eexists.
Qed.

Lemma removeFromWatchlist_total u s w :
  exists r, fst (removeFromWatchlist u s w) = Ret r.
Proof.
  unfold removeFromWatchlist.
  destruct (negb (truthy_str u) || negb (truthy_str s)); [now eexists |].
  destruct w as [[[err |] cdb qe us ds ck] e up con qs]; [now eexists |].
  destruct qe as [err |]; [now eexists |].
  run_store.
  destruct (existsb (same_pair u (toUpperCase s)) ds); now eexists.
Qed.

(** *** The uniqueness invariant *)

Lemma step_unique_pairs w w' :
  step w w' -> unique_pairs (docs (db w)) -> unique_pairs (docs (db w')).
Proof.
  intros Hstep Hinv. destruct Hstep as [u s co w | u s w | u w | e w | w w' H].
  - destruct (addToWatchlist_docs u s co w)
      as [-> | (Hex & _ & _ & _ & _ & ->)]; [exact Hinv |].
    destruct (db w); cbn in *. now apply unique_pairs_add.
  - destruct (removeFromWatchlist_docs u s w)
      as [[_ ->] | (_ & _ & _ & _ & _ & ->)]; [exact Hinv |].
    destruct (db w); cbn in *. now apply unique_pairs_remove.
  - now rewrite getUserWatchlist_db.
  - now rewrite getWatchlistSymbolsByEmail_db.
  - now rewrite H.
Qed.

Lemma reachable_unique_pairs w : reachable w -> unique_pairs (docs (db w)).
Proof.
  induction 1 as [w H | w w' _ IH Hstep].
  - rewrite H. constructor.
  - eapply step_unique_pairs; eauto.
Qed.

Lemma upper_ascii_idem ch : upper_ascii (upper_ascii ch) = upper_ascii ch.
Proof. destruct ch as [[] [] [] [] [] [] [] []]; reflexivity. Qed.

Lemma toUpperCase_idem s : toUpperCase (toUpperCase s) = toUpperCase s.
Proof.
  induction s as [| ch s IH]; simpl; [reflexivity |].
  now rewrite upper_ascii_idem, IH.
Qed.

Lemma truthy_toUpperCase s : truthy_str (toUpperCase s) = truthy_str s.
Proof. destruct s; reflexivity. Qed.

Lemma remove_first_Forall (P : WatchlistItem -> Prop) p ds :
  Forall P ds -> Forall P (remove_first p ds).
Proof.
  intro H. apply Forall_forall. intros d Hd.
  eapply Forall_forall; [exact H | eapply remove_first_incl; eauto].
Qed.

Lemma step_well_formed w w' :
  step w w' -> Forall well_formed (docs (db w)) ->
  Forall well_formed (docs (db w')).
Proof.
  intros Hstep Hinv. destruct Hstep as [u s co w | u s w | u w | e w | w w' H].
  - destruct (addToWatchlist_docs u s co w)
      as [-> | (_ & _ & Hu & Hs & Hco & ->)]; [exact Hinv |].
    destruct (db w); cbn in *. apply Forall_app. split; [exact Hinv |].
    constructor; [| constructor]. unfold well_formed. cbn.
    now rewrite truthy_toUpperCase, toUpperCase_idem.
  - destruct (removeFromWatchlist_docs u s w)
      as [[_ ->] | (_ & _ & _ & _ & _ & ->)]; [exact Hinv |].
    destruct (db w); cbn in *. now apply remove_first_Forall.
  - now rewrite getUserWatchlist_db.
  - now rewrite getWatchlistSymbolsByEmail_db.
  - now rewrite H.
Qed.

Lemma reachable_well_formed w :
  reachable w -> Forall well_formed (docs (db w)).
Proof.
  induction 1 as [w H | w w' _ IH Hstep].
  - rewrite H. constructor.
  - eapply step_well_formed; eauto.
Qed.

Lemma store_up_same_db w w' : db w' = db w -> store_up w -> store_up w'.
Proof. unfold store_up. now intros ->. Qed.

Lemma add_already_exists u s co w :
  truthy_str u = true -> truthy_str s = true -> truthy_str co = true ->
  store_up w -> unique_pairs (docs (db w)) ->
  existsb (same_pair u (toUpperCase s)) (docs (db w)) = true ->
  fst (addToWatchlist u s co w)
  = Ret (mkResult false "Stock already in watchlist") /\
  db (snd (addToWatchlist u s co w)) = db w /\
  exists rs,
    fst (getUserWatchlist u (snd (addToWatchlist u s co w))) = Ret rs /\
    List.length (filter (fun r => (sw_symbol r =? toUpperCase s)%string) rs)
    = 1%nat.
Proof.
  intros Hu Hs Hco Hup Hinv Hex.
  destruct (addToWatchlist_present u s co w Hu Hs Hco Hup Hex) as [Hr Hdb].
  split; [exact Hr | split; [exact Hdb |]].
  destruct (getUserWatchlist_total u (snd (addToWatchlist u s co w)))
    as [rs Hrs].
  exists rs. split; [exact Hrs |].
  rewrite (listed_count u (toUpperCase s) _ rs Hu
             (store_up_same_db _ _ Hdb Hup) Hrs), Hdb.
  now apply unique_pairs_once.
Qed.

(** Adding the same pair twice: the first call succeeds, the second one
    reports the duplicate, and List shows the pair once. *)
Lemma add_twice u s co w :
  unique_pairs (docs (db w)) ->
  success_of (fst (addToWatchlist u s co w)) = true ->
  let w1 := snd (addToWatchlist u s co w) in
  fst (addToWatchlist u s co w1)
  = Ret (mkResult false "Stock already in watchlist") /\
  db (snd (addToWatchlist u s co w1)) = db w1 /\
  exists rs,
    fst (getUserWatchlist u (snd (addToWatchlist u s co w1))) = Ret rs /\
    List.length (filter (fun r => (sw_symbol r =? toUpperCase s)%string) rs)
    = 1%nat.
Proof.
  intros Hinv Hok w1.
  assert (Hvalid : truthy_str u = true /\ truthy_str s = true /\
                   truthy_str co = true /\ store_up w).
  { revert Hok. unfold addToWatchlist, store_up.
    destruct (truthy_str u); [| discriminate].
    destruct (truthy_str s); [| discriminate].
    destruct (truthy_str co); [| discriminate].
    cbn [negb orb].
    destruct w as [[[err |] cdb qe us ds ck] e up con qs].
    { run_store. destruct (match code err with Some n => n =? 11000
                                          | None => false end);
        discriminate. }
    destruct qe as [err |].
    { run_store. destruct (match code err with Some n => n =? 11000
                                          | None => false end);
        discriminate. }
    intros _. repeat split. }
  destruct Hvalid as (Hu & Hs & Hco & Hup).
  destruct (existsb (same_pair u (toUpperCase s)) (docs (db w))) eqn:Hex.
  { destruct (addToWatchlist_present u s co w Hu Hs Hco Hup Hex) as [Hr _].
    rewrite Hr in Hok. discriminate. }
  destruct (addToWatchlist_absent u s co w Hu Hs Hco Hup Hex) as [_ Hdb].
  assert (Hup1 : store_up w1).
  { subst w1. unfold store_up. rewrite Hdb. destruct Hup as [Hc Hq].
    destruct (db w); cbn in *. now split. }
  apply add_already_exists; try assumption.
  - eapply step_unique_pairs; [apply step_add | exact Hinv].
  - subst w1. rewrite Hdb. destruct (db w); cbn.
    rewrite existsb_app. cbn. unfold same_pair at 2. cbn.
    now rewrite !String.eqb_refl, orb_true_r.
Qed.

(** C5.  In a world reachable from an empty collection, for every entry
    of the collection, Add of its pair (with a company, the store
    answering) returns the "already in watchlist" result, leaves the store
    as it was, and List then shows the pair exactly once.  The same holds
    in any world with unique pairs for a pair that is there under the
    symbol as Add stores it, in upper case.  A store failure whose error
    code is not 11000 gives the other, generic message.  In every
    reachable world no pair occurs twice. *)
Theorem C5_second_add_already_exists :
  (forall w d co,
     reachable w -> In d (docs (db w)) ->
     store_up w -> truthy_str co = true ->
     let w' := snd (addToWatchlist (userId d) (symbol d) co w) in
     fst (addToWatchlist (userId d) (symbol d) co w)
     = Ret (mkResult false "Stock already in watchlist") /\
     db w' = db w /\
     exists rs,
       fst (getUserWatchlist (userId d) w') = Ret rs /\
       List.length
         (filter (fun r => (sw_symbol r =? symbol d)%string) rs) = 1%nat) /\
  (forall u s co w,
     truthy_str u = true -> truthy_str s = true -> truthy_str co = true ->
     store_up w -> unique_pairs (docs (db w)) ->
     existsb (same_pair u (toUpperCase s)) (docs (db w)) = true ->
     fst (addToWatchlist u s co w)
     = Ret (mkResult false "Stock already in watchlist") /\
     db (snd (addToWatchlist u s co w)) = db w /\
     exists rs,
       fst (getUserWatchlist u (snd (addToWatchlist u s co w))) = Ret rs /\
       List.length
         (filter (fun r => (sw_symbol r =? toUpperCase s)%string) rs)
       = 1%nat) /\
  (forall u s co w err,
     truthy_str u = true -> truthy_str s = true -> truthy_str co = true ->
     conn_error (db w) = Some err \/
     (conn_error (db w) = None /\ query_error (db w) = Some err) ->
     code err <> Some 11000 ->
     fst (addToWatchlist u s co w)
     = Ret (mkResult false "Failed to add to watchlist")) /\
  (forall w, reachable w -> unique_pairs (docs (db w))).
Proof.
  split; [| split; [| split]].
  - intros w d co Hreach Hin Hup Hco w'. subst w'.
    pose proof (reachable_well_formed w Hreach) as Hwf.
    rewrite Forall_forall in Hwf.
    destruct (Hwf d Hin) as (Hu & Hs & _ & Hupper).
    assert (Hex : existsb (same_pair (userId d) (toUpperCase (symbol d)))
                          (docs (db w)) = true).
    { rewrite Hupper. apply existsb_exists. exists d.
      split; [exact Hin | now apply same_pair_true]. }
    pose proof (add_already_exists (userId d) (symbol d) co w Hu Hs Hco Hup
                  (reachable_unique_pairs w Hreach) Hex) as H.
    rewrite Hupper in H. exact H.
  - intros. now apply add_already_exists.
  - intros u s co w err Hu Hs Hco Hfail Hcode. unfold addToWatchlist.
    rewrite Hu, Hs, Hco. cbn [negb orb].
    assert (Hnot : match code err with Some n => n =? 11000
                                  | None => false end = false).
    { destruct (code err) as [n |]; [| reflexivity].
      apply Z.eqb_neq. congruence. }
    destruct w as [[ce cdb qe us ds ck] e up con qs]. cbn in Hfail.
    destruct Hfail as [-> | [-> ->]]; run_store; now rewrite Hnot.
  - apply reachable_unique_pairs.
Qed.

Lemma sample_unique_pairs : unique_pairs (docs sample_db).
Proof.
  unfold unique_pairs. cbn.
  repeat constructor; cbn; intuition discriminate.
Qed.

Lemma C5_second_add_already_exists_witness :
  fst (addToWatchlist "u1" "AAPL" "Apple Inc" once_added)
  = Ret (mkResult false "Stock already in watchlist") /\
  db (snd (addToWatchlist "u1" "AAPL" "Apple Inc" once_added))
  = db once_added /\
  exists rs,
    fst (getUserWatchlist "u1"
           (snd (addToWatchlist "u1" "AAPL" "Apple Inc" once_added)))
    = Ret rs /\
    List.length (filter (fun r => (sw_symbol r =? "AAPL")%string) rs) = 1%nat.
Proof.
  apply (proj1 C5_second_add_already_exists once_added
           (mkItem "u1" "AAPL" "Apple Inc" 3000) "Apple Inc").
  - apply (reach_step fresh_world).
    + apply reach_empty. reflexivity.
    + apply step_add.
  - left. reflexivity.
  - split; reflexivity.
  - reflexivity.
Defined.

(** *** Remove *)

(** C6.  After a Remove that reported success, the same Remove on the
    world it left reports "not found" and changes nothing in the store
    (pairs being unique, as they are in every reachable world).  A Remove
    of a pair that is not in the collection leaves the store, and so every
    entry, as it was in every world, and reports "not found" when its
    arguments are non-empty and the store answers. *)
Theorem C6_remove_again_not_found :
  (forall u s w,
     unique_pairs (docs (db w)) ->
     success_of (fst (removeFromWatchlist u s w)) = true ->
     let w1 := snd (removeFromWatchlist u s w) in
     fst (removeFromWatchlist u s w1)
     = Ret (mkResult false "Stock not found in watchlist") /\
     db (snd (removeFromWatchlist u s w1)) = db w1) /\
  (forall u s w,
     existsb (same_pair u (toUpperCase s)) (docs (db w)) = false ->
     db (snd (removeFromWatchlist u s w)) = db w /\
     (truthy_str u = true -> truthy_str s = true -> store_up w ->
      fst (removeFromWatchlist u s w)
      = Ret (mkResult false "Stock not found in watchlist"))).
Proof.
  split.
  - intros u s w Hinv Hok w1.
    destruct (removeFromWatchlist_docs u s w)
      as [[Hno _] | (_ & Hu & Hs & Hup & Hex & Hdb)]; [congruence |].
    apply removeFromWatchlist_absent; try assumption.
    + subst w1. unfold store_up. rewrite Hdb. destruct Hup as [Hc Hq].
      destruct (db w); cbn in *. now split.
    + subst w1. rewrite Hdb. destruct (db w); cbn in *.
      now apply remove_first_gone.
  - intros u s w Hex. split.
    + destruct (removeFromWatchlist_docs u s w)
        as [[_ Hdb] | (_ & _ & _ & _ & Hex' & _)]; [exact Hdb | congruence].
    + intros Hu Hs Hup.
      now apply removeFromWatchlist_absent.
Qed.

Lemma C6_remove_again_not_found_witness :
  fst (removeFromWatchlist "u1" "msft"
         (snd (removeFromWatchlist "u1" "msft" (sample_world with_key))))
  = Ret (mkResult false "Stock not found in watchlist") /\
  db (snd (removeFromWatchlist "u1" "msft"
             (snd (removeFromWatchlist "u1" "msft" (sample_world with_key)))))
  = db (snd (removeFromWatchlist "u1" "msft" (sample_world with_key))).
Proof.
  apply (proj1 C6_remove_again_not_found "u1" "msft" (sample_world with_key)).
  - exact sample_unique_pairs.
  - reflexivity.
Defined.

(** *** Totality *)

(** C7.  With an empty user identifier List returns the empty list and
    leaves the world as it was: no store request is recorded.  With the
    store failing (on connecting or on the query) List returns the empty
    list.  The identity resolver behaves alike.  Each of the four actions
    returns a value in every world, on every argument: none throws. *)
Theorem C7_actions_total_fail_open :
  (forall w, getUserWatchlist "" w = (Ret [], w)) /\
  (forall u w, ~ store_up w -> fst (getUserWatchlist u w) = Ret []) /\
  (forall w, getWatchlistSymbolsByEmail "" w = (Ret [], w)) /\
  (forall em w,
     ~ (store_up w /\ connection_db (db w) = true) ->
     fst (getWatchlistSymbolsByEmail em w) = Ret []) /\
  (forall u w, exists rs, fst (getUserWatchlist u w) = Ret rs) /\
  (forall em w, exists l, fst (getWatchlistSymbolsByEmail em w) = Ret l) /\
  (forall u s co w, exists r, fst (addToWatchlist u s co w) = Ret r) /\
  (forall u s w, exists r, fst (removeFromWatchlist u s w) = Ret r).
Proof.
  repeat match goal with |- _ /\ _ => split end.
  - reflexivity.
  - intros u w Hdown. destruct (truthy_str u) eqn:Hu.
    + now apply getUserWatchlist_down.
    + unfold getUserWatchlist. now rewrite Hu.
  - reflexivity.
  - apply getWatchlistSymbolsByEmail_down.
  - apply getUserWatchlist_total.
  - apply getWatchlistSymbolsByEmail_total.
  - apply addToWatchlist_total.
  - apply removeFromWatchlist_total.
Qed.

Lemma C7_actions_total_fail_open_witness :
  fst (getUserWatchlist "u1"
         (mkWorld (mkDb (Some store_lost) true None [] [AAPL; MSFT] 3000)
                  with_key sample_upstream [] []))
  = Ret [].
Proof.
  apply (proj1 (proj2 C7_actions_total_fail_open) "u1").
  intros [H _]. discriminate H.
Defined.

(** *** Arrival orders *)

Section ArrivalOrders.
Context {A : Type} (up : Upstream).

Lemma outcome_resume (t : Task A) :
  outcome up (resume up t) = outcome up t.
Proof.
  unfold outcome. destruct t as [a | e | line t | url k]; simpl; auto.
  now destruct (run_task up t).
Qed.

Lemma outcome_resume_nth i (pool : list (Task A)) :
  map (outcome up) (resume_nth up i pool) = map (outcome up) pool.
Proof.
  revert i. induction pool as [| t pool IH]; intros [| i]; simpl; auto.
  - now rewrite outcome_resume.
  - now rewrite IH.
Qed.

(** A step never changes what a task will settle with. *)
Lemma outcome_run_schedule sched (pool : list (Task A)) :
  map (outcome up) (run_schedule up sched pool) = map (outcome up) pool.
Proof.
  revert pool. induction sched as [| i sched IH]; intro pool; simpl; auto.
  now rewrite IH, outcome_resume_nth.
Qed.

Lemma promise_all_now_ret (pool : list (Task A)) l :
  promise_all_now pool = Some (Ret l) -> pool = map Done l.
Proof.
  revert l. induction pool as [| t pool IH]; intros l; simpl.
  - now intros [= <-].
  - destruct t as [a | e | line t | url k];
      destruct (promise_all_now pool) as [[l' | e'] |];
      try discriminate.
    intros [= <-]. simpl. now rewrite (IH l').
Qed.

Lemma promise_all_now_throw (pool : list (Task A)) e :
  promise_all_now pool = Some (Throw e) -> In (Fail e) pool.
Proof.
  induction pool as [| t pool IH]; simpl; [discriminate |].
  destruct t as [a | e0 | line t | url k];
    destruct (promise_all_now pool) as [[l' | e'] |];
    try discriminate; intros [= <-]; auto.
Qed.

Lemma promise_all_now_done (l : list A) :
  promise_all_now (map Done l) = Some (Ret l).
Proof. induction l as [| a l IH]; simpl; [| rewrite IH]; reflexivity. Qed.

Lemma map_Ret_inj (l l' : list A) :
  map (@Ret A) l = map (@Ret A) l' -> l = l'.
Proof.
  revert l'. induction l as [| a l IH]; intros [| a' l']; simpl;
    try discriminate; auto.
  intros [= -> H]. f_equal. auto.
Qed.

Lemma run_schedule_app s1 s2 (pool : list (Task A)) :
  run_schedule up (s1 ++ s2)%list pool
  = run_schedule up s2 (run_schedule up s1 pool).
Proof.
  revert pool. induction s1 as [| i s1 IH]; intro pool; simpl; auto.
Qed.

Lemma run_schedule_front k (t : Task A) pool :
  run_schedule up (repeat O k) (t :: pool)
  = Nat.iter k (resume up) t :: pool.
Proof.
  revert t. induction k as [| k IH]; intro t; [reflexivity |].
  cbn [repeat run_schedule resume_nth]. rewrite IH.
  now rewrite Nat.iter_succ_r.
Qed.

Lemma run_schedule_shift s (t : Task A) pool :
  run_schedule up (map S s) (t :: pool) = t :: run_schedule up s pool.
Proof.
  revert pool. induction s as [| i s IH]; intro pool; simpl; auto.
Qed.

End ArrivalOrders.

Lemma outcome_enrich_pool up token l :
  map (outcome up) (map (enrichItem token) l)
  = map (@Ret _) (map (enriched up token) l).
Proof.
  rewrite !map_map. apply map_ext. intro item. apply run_task_enrichItem.
Qed.

(** Whatever the arrival order, a pool of enrichment callbacks that has
    something to offer offers the records of the sequential run, and every
    callback has returned by then. *)
Lemma enrich_pool_schedule up token l sched r :
  promise_all_now (run_schedule up sched (map (enrichItem token) l)) = Some r ->
  r = Ret (map (enriched up token) l) /\
  Forall (fun t => settled t = true)
         (run_schedule up sched (map (enrichItem token) l)).
Proof.
  intro H.
  pose proof (outcome_run_schedule up sched (map (enrichItem token) l)) as Ho.
  rewrite outcome_enrich_pool in Ho.
  destruct r as [rs | e].
  - apply promise_all_now_ret in H. rewrite H in Ho |- *. split.
    + f_equal. apply map_Ret_inj. rewrite <- Ho, map_map. reflexivity.
    + apply Forall_map, Forall_forall. reflexivity.
  - exfalso. apply promise_all_now_throw in H.
    apply (in_map (outcome up)) in H. rewrite Ho in H.
    apply in_map_iff in H. destruct H as (x & Hx & _). discriminate.
Qed.

Lemma enrichItem_four_steps up token item :
  Nat.iter 4 (resume up) (enrichItem token item)
  = Done (enriched up token item).
Proof.
  unfold enrichItem, enriched, fetchJson.
  cbn [Nat.iter nat_rect tcatch tbind resume].
  destruct (up (quoteUrl token item));
    cbn [tcatch tbind resume]; [| reflexivity].
  destruct (up (profileUrl token item));
    cbn [tcatch tbind resume]; [| reflexivity].
  destruct (up (financialsUrl token item)); reflexivity.
Qed.

Lemma in_turn_settles up token l :
  run_schedule up (in_turn (List.length l)) (map (enrichItem token) l)
  = map Done (map (enriched up token) l).
Proof.
  induction l as [| item l IH]; [reflexivity |].
  cbn [List.length in_turn map]. rewrite run_schedule_app.
  rewrite run_schedule_front, enrichItem_four_steps, run_schedule_shift.
  now rewrite IH.
Qed.

Lemma requests_enrichItem up token item :
  requests up (enrichItem token item)
  = match up (quoteUrl token item) with
    | Throw _ => [quoteUrl token item]
    | Ret _ =>
        match up (profileUrl token item) with
        | Throw _ => [quoteUrl token item; profileUrl token item]
        | Ret _ => [quoteUrl token item; profileUrl token item;
                    financialsUrl token item]
        end
    end.
Proof.
  unfold enrichItem, fetchJson.
  cbn [tcatch tbind requests].
  destruct (up (quoteUrl token item));
    cbn [tcatch tbind requests]; [| reflexivity].
  destruct (up (profileUrl token item));
    cbn [tcatch tbind requests]; [| reflexivity].
  destruct (up (financialsUrl token item)); reflexivity.
Qed.

(** C8, the claim as stated fails: when the quote request about AAPL is
    refused, it is the only request issued for AAPL; the profile and the
    metrics requests are never made. *)
Lemma C8_requests_not_independent :
  pending (enrichItem "key" AAPL) = Some (quoteUrl "key" AAPL) /\
  requests sample_upstream (enrichItem "key" AAPL) = [quoteUrl "key" AAPL] /\
  ~ issues_all_three sample_upstream "key" AAPL.
Proof.
  split; [reflexivity | split; [reflexivity |]].
  intros (_ & H & _). vm_compute in H. intuition discriminate.
Qed.

(** C8, amended.  Within an entry the three requests are made one at a
    time, in the order quote, profile, metrics: the callback starts by
    waiting for the quote alone, and each later request is made only when
    the one before has returned, so none follows a request that threw.
    Across entries there is no ordering dependency: in whatever order the
    responses arrive, once [Promise.all] has something to offer it is the
    list of the records of all the entries, in their order, every callback
    has returned by then (a failure cancels nothing), and letting the
    callbacks run in turn is one way to get there. *)
Theorem C8_sequential_requests_independent_symbols :
  forall up token,
    (forall item,
       pending (enrichItem token item) = Some (quoteUrl token item) /\
       (forall q, up (quoteUrl token item) = Ret q ->
          pending (resume up (enrichItem token item))
          = Some (profileUrl token item)) /\
       (forall q p, up (quoteUrl token item) = Ret q ->
          up (profileUrl token item) = Ret p ->
          pending (resume up (resume up (enrichItem token item)))
          = Some (financialsUrl token item)) /\
       requests up (enrichItem token item)
       = match up (quoteUrl token item) with
         | Throw _ => [quoteUrl token item]
         | Ret _ =>
             match up (profileUrl token item) with
             | Throw _ => [quoteUrl token item; profileUrl token item]
             | Ret _ => [quoteUrl token item; profileUrl token item;
                         financialsUrl token item]
             end
         end) /\
    (forall entries sched r,
       promise_all_now (run_schedule up sched (map (enrichItem token) entries))
       = Some r ->
       r = Ret (map (enriched up token) entries) /\
       Forall (fun t => settled t = true)
              (run_schedule up sched (map (enrichItem token) entries))) /\
    (forall entries,
       promise_all_now
         (run_schedule up (in_turn (List.length entries))
                       (map (enrichItem token) entries))
       = Some (Ret (map (enriched up token) entries))).
Proof.
  intros up token. split; [| split].
  - intro item. split; [reflexivity | split; [| split]].
    + intros q Hq. unfold enrichItem, fetchJson.
      cbn [tcatch tbind resume]. rewrite Hq. reflexivity.
    + intros q p Hq Hp. unfold enrichItem, fetchJson.
      cbn [tcatch tbind resume]. rewrite Hq.
      cbn [tcatch tbind resume]. rewrite Hp. reflexivity.
    + apply requests_enrichItem.
  - intros entries sched r. apply enrich_pool_schedule.
  - intro entries. rewrite in_turn_settles. apply promise_all_now_done.
Qed.

Lemma C8_sequential_requests_independent_symbols_witness :
  promise_all_now
    (run_schedule sample_upstream [1; 0; 1; 0; 0; 0]%nat
       (map (enrichItem "key") [MSFT; AAPL]))
  = Some (Ret [merge MSFT (Some sample_body) (Some sample_body)
                 (Some sample_body); basic AAPL]) /\
  Ret [merge MSFT (Some sample_body) (Some sample_body) (Some sample_body);
       basic AAPL]
  = Ret (map (enriched sample_upstream "key") [MSFT; AAPL]) /\
  Forall (fun t => settled t = true)
    (run_schedule sample_upstream [1; 0; 1; 0; 0; 0]%nat
       (map (enrichItem "key") [MSFT; AAPL])).
Proof.
  split; [reflexivity |].
  apply (proj1 (proj2 (C8_sequential_requests_independent_symbols
                         sample_upstream "key"))
           [MSFT; AAPL] [1; 0; 1; 0; 0; 0]%nat).
  reflexivity.
Defined.

(** *** The table view *)

Lemma filter_other_rows sym l i row :
  NoDup (map sw_symbol l) -> nth_error l i = Some row ->
  sw_symbol row = sym ->
  filter (fun item => negb (sw_symbol item =? sym)%string) l
  = (firstn i l ++ skipn (S i) l)%list.
Proof.
  revert i. induction l as [| x l IH]; intros i Hnd Hi Hsym.
  - destruct i; discriminate.
  - cbn [map] in Hnd. inversion Hnd as [| ? ? Hnotin Hnd']; subst.
    destruct i as [| i]; cbn [nth_error] in Hi.
    + injection Hi as ->. cbn [filter firstn skipn app].
      rewrite String.eqb_refl. cbn [negb].
      apply forallb_filter_id, forallb_forall. intros y Hy.
      apply negb_true_iff, String.eqb_neq. intros Heq. apply Hnotin.
      rewrite <- Heq. now apply in_map.
    + cbn [filter firstn skipn app].
      destruct (sw_symbol x =? sw_symbol row)%string eqn:Hx.
      * exfalso. apply String.eqb_eq in Hx. apply Hnotin. rewrite Hx.
        apply in_map. eapply nth_error_In; eauto.
      * cbn [negb]. f_equal. now apply IH.
Qed.

Lemma NoDup_symbols_of_pairs u ds :
  unique_pairs ds ->
  NoDup (map symbol (filter (fun i => (userId i =? u)%string) ds)).
Proof.
  unfold unique_pairs. induction ds as [| d ds IH]; cbn [map filter];
    intro H; [constructor |].
  inversion H as [| ? ? Hnotin Hnd]; subst.
  destruct (userId d =? u)%string eqn:Hu; [| auto].
  cbn [map]. constructor; [| auto].
  rewrite in_map_iff. intros (x & Hx & Hin). apply filter_In in Hin.
  destruct Hin as [Hin Hxu]. apply Hnotin. rewrite in_map_iff.
  exists x. split; [| exact Hin].
  apply String.eqb_eq in Hu, Hxu. congruence.
Qed.

(** Pairs being unique, the rows List returns have distinct symbols. *)
Lemma getUserWatchlist_symbols_NoDup u w rs :
  unique_pairs (docs (db w)) ->
  fst (getUserWatchlist u w) = Ret rs ->
  NoDup (map sw_symbol rs).
Proof.
  intros Hinv Hrs.
  destruct (truthy_str u) eqn:Hu.
  - destruct (conn_error (db w)) eqn:Hc.
    { rewrite getUserWatchlist_down in Hrs;
        [injection Hrs as <-; constructor | assumption
        | intros [H _]; congruence]. }
    destruct (query_error (db w)) eqn:Hq.
    { rewrite getUserWatchlist_down in Hrs;
        [injection Hrs as <-; constructor | assumption
        | intros [_ H]; congruence]. }
    change (map sw_symbol rs) with (map (fun r => symbol (entry_of r)) rs).
    rewrite <- (map_map entry_of symbol).
    rewrite (getUserWatchlist_entries u w rs Hu (conj Hc Hq) Hrs).
    eapply Permutation_NoDup.
    + apply Permutation_map. symmetry. apply sort_desc_perm.
    + now apply NoDup_symbols_of_pairs.
  - unfold getUserWatchlist in Hrs. rewrite Hu in Hrs.
    injection Hrs as <-. constructor.
Qed.

(** C9.  [handleRemove] ends with no row marked as removing.  When the
    Remove call reports success, the rows kept are those whose symbol is
    not the one removed, unchanged and in their order, with one success
    notification added; with distinct symbols in the table that is the
    table without the one row of that symbol.  When the call reports
    failure or throws, the rows are as they were and one error notification
    is added. *)
Theorem C9_handleRemove_view :
  forall net uid sym v w,
    let r := fst (call_action net (removeFromWatchlist uid sym) w) in
    let v' := fst (handleRemove net uid sym v w) in
    removing v' = None /\
    (success_of r = true ->
     items v'
     = filter (fun item => negb (sw_symbol item =? sym)%string) (items v) /\
     toasts v' = (toasts v ++ [toast_success "Removed from watchlist"])%list /\
     (forall row, In row (items v') <->
                  In row (items v) /\ sw_symbol row <> sym) /\
     (forall i row,
        NoDup (map sw_symbol (items v)) ->
        nth_error (items v) i = Some row -> sw_symbol row = sym ->
        items v' = (firstn i (items v) ++ skipn (S i) (items v))%list)) /\
    (success_of r = false ->
     items v' = items v /\
     exists text, toasts v' = (toasts v ++ [toast_error text])%list).
Proof.
  intros net uid sym v w r v'. subst r v'. unfold handleRemove.
  destruct (call_action net (removeFromWatchlist uid sym) w) as [[res | e] w'];
    cbn [fst success_of].
  - destruct (success res); cbn [setRemoving setItems toast items removing
                                  toasts].
    + split; [reflexivity | split; [| discriminate]].
      intros _. split; [reflexivity | split; [reflexivity | split]].
      * intro row. rewrite filter_In, negb_true_iff, String.eqb_neq.
        reflexivity.
      * intros i row Hnd Hi Hsym. now apply filter_other_rows with row.
    + split; [reflexivity | split; [discriminate |]].
      intros _. split; [reflexivity | eexists; reflexivity].
  - cbn [setRemoving setItems toast items removing toasts].
    split; [reflexivity | split; [discriminate |]].
    intros _. split; [reflexivity | eexists; reflexivity].
Qed.

Lemma C9_handleRemove_view_witness :
  items (fst (handleRemove None "u1" "MSFT" sample_view
                (sample_world with_key)))
  = filter (fun item => negb (sw_symbol item =? "MSFT")%string)
           (items sample_view) /\
  toasts (fst (handleRemove None "u1" "MSFT" sample_view
                 (sample_world with_key)))
  = (toasts sample_view ++ [toast_success "Removed from watchlist"])%list /\
  (forall row,
     In row (items (fst (handleRemove None "u1" "MSFT" sample_view
                           (sample_world with_key))))
     <-> In row (items sample_view) /\ sw_symbol row <> "MSFT") /\
  (forall i row,
     NoDup (map sw_symbol (items sample_view)) ->
     nth_error (items sample_view) i = Some row -> sw_symbol row = "MSFT" ->
     items (fst (handleRemove None "u1" "MSFT" sample_view
                   (sample_world with_key)))
     = (firstn i (items sample_view) ++ skipn (S i) (items sample_view))%list).
Proof.
  apply (proj1 (proj2 (C9_handleRemove_view None "u1" "MSFT" sample_view
                         (sample_world with_key)))).
  reflexivity.
Defined.

(* ================================================================== *)
(** ** Further properties of the actions *)
(* ================================================================== *)

(** *** Validation comes before any request *)

(** X2.  Add and Remove look at their arguments before anything else: with
    an empty argument they return "Missing required fields" and leave the
    world as it was (no store request, no console line); with non-empty
    arguments the first thing they do is to connect to the store. *)
Theorem validation_before_any_request :
  forall u s co w,
    (valid_add u s co = false ->
     addToWatchlist u s co w
     = (Ret (mkResult false "Missing required fields"), w)) /\
    (valid_add u s co = true ->
     exists rest,
       queries (snd (addToWatchlist u s co w))
       = (queries w ++ OpConnect :: rest)%list) /\
    (valid_remove u s = false ->
     removeFromWatchlist u s w
     = (Ret (mkResult false "Missing required fields"), w)) /\
    (valid_remove u s = true ->
     exists rest,
       queries (snd (removeFromWatchlist u s w))
       = (queries w ++ OpConnect :: rest)%list).
Proof.
  intros u s co w. unfold valid_add, valid_remove, addToWatchlist,
    removeFromWatchlist.
  repeat split.
  - destruct (truthy_str u), (truthy_str s), (truthy_str co);
      try discriminate; reflexivity.
  - destruct (truthy_str u), (truthy_str s), (truthy_str co);
      try discriminate. intros _. cbn [negb orb].
    destruct w as [[[err |] cdb qe us ds ck] e up con qs].
    { run_store. exists [].
      destruct (match code err with Some n => n =? 11000
                               | None => false end); reflexivity. }
    destruct qe as [err |].
    { run_store. eexists.
      destruct (match code err with Some n => n =? 11000
                               | None => false end);
        cbn; rewrite <- app_assoc; reflexivity. }
    run_store.
    destruct (existsb (same_pair u (toUpperCase s)) ds); eexists;
      cbn; rewrite <- app_assoc; reflexivity.
  - destruct (truthy_str u), (truthy_str s); try discriminate; reflexivity.
  - destruct (truthy_str u), (truthy_str s); try discriminate.
    intros _. cbn [negb orb].
    destruct w as [[[err |] cdb qe us ds ck] e up con qs].
    { run_store. exists []. reflexivity. }
    destruct qe as [err |].
    { run_store. eexists. cbn. rewrite <- app_assoc. reflexivity. }
    run_store.
    destruct (existsb (same_pair u (toUpperCase s)) ds); eexists;
      cbn; rewrite <- app_assoc; reflexivity.
Qed.

Lemma validation_before_any_request_witness :
  addToWatchlist "u1" "" "Apple Inc" (sample_world with_key)
  = (Ret (mkResult false "Missing required fields"), sample_world with_key).
Proof.
  apply (proj1 (validation_before_any_request "u1" "" "Apple Inc"
                  (sample_world with_key))).
  reflexivity.
Defined.

(** *** What List returns, and what the actions leave alone *)

Lemma store_up_b_true w : store_up_b w = true <-> store_up w.
Proof.
  unfold store_up_b, store_up.
  destruct (conn_error (db w)), (query_error (db w)); split;
    try discriminate; try tauto; intros [H1 H2]; discriminate.
Qed.

Lemma getUserWatchlist_listed u w :
  fst (getUserWatchlist u w) = Ret (listed u w).
Proof.
  unfold listed. destruct (truthy_str u) eqn:Hu.
  - destruct (store_up_b w) eqn:Hup; cbn [andb].
    + apply getUserWatchlist_up; [assumption | now apply store_up_b_true].
    + apply getUserWatchlist_down; [assumption |].
      intro H. apply store_up_b_true in H. congruence.
  - unfold getUserWatchlist. now rewrite Hu.
Qed.

Lemma addToWatchlist_env u s co w :
  env (snd (addToWatchlist u s co w)) = env w /\
  upstream (snd (addToWatchlist u s co w)) = upstream w.
Proof.
  unfold addToWatchlist.
  destruct (negb (truthy_str u) || negb (truthy_str s)
            || negb (truthy_str co)); [split; reflexivity |].
  destruct w as [[[err |] cdb qe us ds ck] e up con qs].
  { run_store.
    destruct (match code err with Some n => n =? 11000
                             | None => false end); split; reflexivity. }
  destruct qe as [err |].
  { run_store.
    destruct (match code err with Some n => n =? 11000
                             | None => false end); split; reflexivity. }
  run_store.
  destruct (existsb (same_pair u (toUpperCase s)) ds); split; reflexivity.
Qed.

Lemma removeFromWatchlist_env u s w :
  env (snd (removeFromWatchlist u s w)) = env w /\
  upstream (snd (removeFromWatchlist u s w)) = upstream w.
Proof.
  unfold removeFromWatchlist.
  destruct (negb (truthy_str u) || negb (truthy_str s));
    [split; reflexivity |].
  destruct w as [[[err |] cdb qe us ds ck] e up con qs];
    [split; reflexivity |].
  destruct qe as [err |]; [split; reflexivity |].
  run_store.
  destruct (existsb (same_pair u (toUpperCase s)) ds); split; reflexivity.
Qed.

Lemma getUserWatchlist_env u w :
  env (snd (getUserWatchlist u w)) = env w /\
  upstream (snd (getUserWatchlist u w)) = upstream w.
Proof.
  unfold getUserWatchlist.
  destruct (negb (truthy_str u)); [split; reflexivity |].
  destruct w as [[[err |] cdb qe us ds ck] e up con qs];
    [split; reflexivity |].
  destruct qe as [err |]; [split; reflexivity |].
  run_store.
  destruct (usable_token e); [| split; reflexivity].
  run_store.
  destruct (promise_all_run up _) as [[r | err] ls]; split; reflexivity.
Qed.

Lemma getWatchlistSymbolsByEmail_env em w :
  env (snd (getWatchlistSymbolsByEmail em w)) = env w /\
  upstream (snd (getWatchlistSymbolsByEmail em w)) = upstream w.
Proof.
  unfold getWatchlistSymbolsByEmail.
  destruct (negb (truthy_str em)); [split; reflexivity |].
  destruct w as [[[err |] cdb qe us ds ck] e up con qs];
    [split; reflexivity |].
  destruct cdb; [| split; reflexivity].
  destruct qe as [err |]; [split; reflexivity |].
  run_store. cbn [negb]. run_store.
  destruct (find (fun u => (user_email u =? em)%string) us) as [usr |];
    [| split; reflexivity].
  match goal with
  | |- context [if negb (truthy_str ?x) then _ else _] =>
      destruct (negb (truthy_str x))
  end; split; reflexivity.
Qed.

(** X11.  The two read actions change nothing but the console and the
    record of store requests: the store, the environment and the upstream
    are what they were, in every world and on every argument. *)
Theorem reads_change_nothing :
  forall arg w,
    (db (snd (getUserWatchlist arg w)) = db w /\
     env (snd (getUserWatchlist arg w)) = env w /\
     upstream (snd (getUserWatchlist arg w)) = upstream w) /\
    (db (snd (getWatchlistSymbolsByEmail arg w)) = db w /\
     env (snd (getWatchlistSymbolsByEmail arg w)) = env w /\
     upstream (snd (getWatchlistSymbolsByEmail arg w)) = upstream w).
Proof.
  intros arg w. split; split.
  - apply getUserWatchlist_db.
  - apply getUserWatchlist_env.
  - apply getWatchlistSymbolsByEmail_db.
  - apply getWatchlistSymbolsByEmail_env.
Qed.

(** What List returns depends on the flags of the store, the entries of
    the user, the environment and the upstream, and on nothing else. *)
Lemma listed_ext u w w' :
  conn_error (db w') = conn_error (db w) ->
  query_error (db w') = query_error (db w) ->
  entries_of u w' = entries_of u w ->
  env w' = env w -> upstream w' = upstream w ->
  listed u w' = listed u w.
Proof.
  unfold listed, store_up_b. now intros -> -> -> -> ->.
Qed.

(** *** Add and Remove on the collection *)

Lemma set_docs_flags ds d :
  conn_error (set_docs ds d) = conn_error d /\
  query_error (set_docs ds d) = query_error d /\
  docs (set_docs ds d) = ds /\ clock (set_docs ds d) = clock d.
Proof. destruct d; repeat split. Qed.

Lemma remove_first_app_last p ds x :
  existsb p ds = false -> p x = true ->
  remove_first p (ds ++ [x]) = ds.
Proof.
  induction ds as [| d ds IH]; cbn; intros Hex Hx.
  - now rewrite Hx.
  - destruct (p d); [discriminate |]. cbn in Hex. now rewrite IH.
Qed.

Lemma same_pair_refl u s co t : same_pair u s (mkItem u s co t) = true.
Proof. unfold same_pair. cbn. now rewrite !String.eqb_refl. Qed.

(** X1.  Adding a pair that is not yet there, with non-empty arguments and
    the store answering, succeeds, and List for that user then returns the
    records it returned before together with one for the new entry: symbol
    in upper case, company as given, [addedAt] the time of the call. *)
Theorem add_then_listed :
  forall u s co w,
    valid_add u s co = true -> store_up w ->
    existsb (same_pair u (toUpperCase s)) (docs (db w)) = false ->
    let w' := snd (addToWatchlist u s co w) in
    let entry := mkItem u (toUpperCase s) co (clock (db w)) in
    fst (addToWatchlist u s co w) = Ret (mkResult true "Added to watchlist") /\
    exists rs rs',
      fst (getUserWatchlist u w) = Ret rs /\
      fst (getUserWatchlist u w') = Ret rs' /\
      Permutation (map entry_of rs') (entry :: map entry_of rs) /\
      exists r, In r rs' /\ entry_of r = entry.
Proof.
  intros u s co w Hvalid Hup Hex w' entry. unfold valid_add in Hvalid.
  apply andb_true_iff in Hvalid. destruct Hvalid as [Hus Hco].
  apply andb_true_iff in Hus. destruct Hus as [Hu Hs].
  destruct (addToWatchlist_absent u s co w Hu Hs Hco Hup Hex) as [Hr Hdb].
  split; [exact Hr |].
  assert (Hup' : store_up w').
  { subst w'. unfold store_up. rewrite Hdb.
    destruct (set_docs_flags
                (docs (db w) ++ [mkItem u (toUpperCase s) co (clock (db w))])
                (db w)) as (-> & -> & _). exact Hup. }
  destruct (getUserWatchlist_total u w) as [rs Hrs].
  destruct (getUserWatchlist_total u w') as [rs' Hrs'].
  exists rs, rs'. split; [exact Hrs | split; [exact Hrs' |]].
  assert (Hperm : Permutation (map entry_of rs') (entry :: map entry_of rs)).
  { rewrite (getUserWatchlist_entries u w rs Hu Hup Hrs).
    rewrite (getUserWatchlist_entries u w' rs' Hu Hup' Hrs').
    unfold entries_of. subst w'. rewrite Hdb.
    destruct (set_docs_flags
                (docs (db w) ++ [mkItem u (toUpperCase s) co (clock (db w))])
                (db w)) as (_ & _ & -> & _).
    rewrite !sort_desc_perm, filter_app. cbn [filter userId].
    rewrite String.eqb_refl. rewrite Permutation_app_comm. reflexivity. }
  split; [exact Hperm |].
  assert (Hin : In entry (map entry_of rs')).
  { eapply Permutation_in; [symmetry; exact Hperm | now left]. }
  apply in_map_iff in Hin. destruct Hin as (r & Hr' & Hin). now exists r.
Qed.

Lemma add_then_listed_witness :
  fst (addToWatchlist "u1" "nvda" "Nvidia" (sample_world with_key))
  = Ret (mkResult true "Added to watchlist") /\
  exists rs rs',
    fst (getUserWatchlist "u1" (sample_world with_key)) = Ret rs /\
    fst (getUserWatchlist "u1"
           (snd (addToWatchlist "u1" "nvda" "Nvidia" (sample_world with_key))))
    = Ret rs' /\
    Permutation (map entry_of rs')
      (mkItem "u1" (toUpperCase "nvda") "Nvidia"
              (clock (db (sample_world with_key))) :: map entry_of rs) /\
    exists r, In r rs' /\
      entry_of r = mkItem "u1" (toUpperCase "nvda") "Nvidia"
                          (clock (db (sample_world with_key))).
Proof.
  apply (add_then_listed "u1" "nvda" "Nvidia" (sample_world with_key)).
  - reflexivity.
  - split; reflexivity.
  - reflexivity.
Defined.

(** X3.  Add followed by Remove of the same pair is a round trip: for a
    pair that was not there, with non-empty arguments and the store
    answering, both report success and the store ends as it started. *)
Theorem add_remove_roundtrip :
  forall u s co w,
    valid_add u s co = true -> store_up w ->
    existsb (same_pair u (toUpperCase s)) (docs (db w)) = false ->
    let w1 := snd (addToWatchlist u s co w) in
    success_of (fst (addToWatchlist u s co w)) = true /\
    success_of (fst (removeFromWatchlist u s w1)) = true /\
    db (snd (removeFromWatchlist u s w1)) = db w.
Proof.
  intros u s co w Hvalid Hup Hex w1. unfold valid_add in Hvalid.
  apply andb_true_iff in Hvalid. destruct Hvalid as [Hus Hco].
  apply andb_true_iff in Hus. destruct Hus as [Hu Hs].
  destruct (addToWatchlist_absent u s co w Hu Hs Hco Hup Hex) as [Hr Hdb].
  split; [now rewrite Hr |].
  assert (Hex1 : existsb (same_pair u (toUpperCase s)) (docs (db w1)) = true).
  { subst w1. rewrite Hdb.
    destruct (set_docs_flags
                (docs (db w) ++ [mkItem u (toUpperCase s) co (clock (db w))])
                (db w)) as (_ & _ & -> & _).
    rewrite existsb_app. cbn [existsb]. rewrite same_pair_refl.
    apply orb_true_r. }
  assert (Hup1 : store_up w1).
  { subst w1. unfold store_up. rewrite Hdb. destruct Hup.
    destruct (db w); cbn in *. now split. }
  destruct (removeFromWatchlist_present u s w1 Hu Hs Hup1 Hex1) as [Hr1 Hdb1].
  split; [now rewrite Hr1 |].
  rewrite Hdb1. subst w1. rewrite Hdb. destruct (db w). unfold set_docs.
  cbn [conn_error connection_db query_error users docs clock] in *.
  f_equal. apply remove_first_app_last; [exact Hex | apply same_pair_refl].
Qed.

Lemma add_remove_roundtrip_witness :
  success_of (fst (addToWatchlist "u1" "nvda" "Nvidia"
                     (sample_world with_key))) = true /\
  success_of
    (fst (removeFromWatchlist "u1" "nvda"
            (snd (addToWatchlist "u1" "nvda" "Nvidia"
                    (sample_world with_key))))) = true /\
  db (snd (removeFromWatchlist "u1" "nvda"
             (snd (addToWatchlist "u1" "nvda" "Nvidia"
                     (sample_world with_key)))))
  = db (sample_world with_key).
Proof.
  apply (add_remove_roundtrip "u1" "nvda" "Nvidia" (sample_world with_key)).
  - reflexivity.
  - split; reflexivity.
  - reflexivity.
Defined.

(** X4.  A pair can be added again once it has been removed: after a
    Remove that reported success (pairs being unique), Add of the same pair
    with a company succeeds and puts the entry back, stamped with the time
    of this second call. *)
Theorem remove_then_add :
  forall u s co w,
    unique_pairs (docs (db w)) ->
    success_of (fst (removeFromWatchlist u s w)) = true ->
    truthy_str co = true ->
    let w1 := snd (removeFromWatchlist u s w) in
    fst (addToWatchlist u s co w1) = Ret (mkResult true "Added to watchlist") /\
    docs (db (snd (addToWatchlist u s co w1)))
    = (remove_first (same_pair u (toUpperCase s)) (docs (db w))
       ++ [mkItem u (toUpperCase s) co (clock (db w))])%list.
Proof.
  intros u s co w Hinv Hok Hco w1.
  destruct (removeFromWatchlist_docs u s w)
    as [[Hno _] | (_ & Hu & Hs & Hup & Hex & Hdb)]; [congruence |].
  assert (Hup1 : store_up w1).
  { subst w1. unfold store_up. rewrite Hdb. destruct Hup.
    destruct (db w); cbn in *. now split. }
  assert (Hex1 : existsb (same_pair u (toUpperCase s)) (docs (db w1)) = false).
  { subst w1. rewrite Hdb. destruct (db w); cbn in *.
    now apply remove_first_gone. }
  destruct (addToWatchlist_absent u s co w1 Hu Hs Hco Hup1 Hex1) as [Hr Hdb1].
  split; [exact Hr |]. rewrite Hdb1. subst w1. rewrite Hdb.
  destruct (db w); reflexivity.
Qed.

Lemma remove_then_add_witness :
  fst (addToWatchlist "u1" "msft" "Microsoft"
         (snd (removeFromWatchlist "u1" "msft" (sample_world with_key))))
  = Ret (mkResult true "Added to watchlist") /\
  docs (db (snd (addToWatchlist "u1" "msft" "Microsoft"
                   (snd (removeFromWatchlist "u1" "msft"
                           (sample_world with_key))))))
  = (remove_first (same_pair "u1" (toUpperCase "msft"))
       (docs (db (sample_world with_key)))
     ++ [mkItem "u1" (toUpperCase "msft") "Microsoft"
                (clock (db (sample_world with_key)))])%list.
Proof.
  apply (remove_then_add "u1" "msft" "Microsoft" (sample_world with_key)).
  - exact sample_unique_pairs.
  - reflexivity.
  - reflexivity.
Defined.

(** *** Other users, other symbols *)

Lemma remove_first_other_user u u' sym ds :
  u <> u' ->
  filter (fun i => (userId i =? u')%string)
         (remove_first (same_pair u sym) ds)
  = filter (fun i => (userId i =? u')%string) ds.
Proof.
  intro Hneq. induction ds as [| d ds IH]; [reflexivity |].
  cbn [remove_first]. destruct (same_pair u sym d) eqn:Hp.
  - cbn [filter]. apply same_pair_true in Hp. injection Hp as Hu _.
    destruct (userId d =? u')%string eqn:Hd; [| reflexivity].
    apply String.eqb_eq in Hd. congruence.
  - cbn [filter]. now rewrite IH.
Qed.

Lemma entries_after_add_other u u' s co w :
  u <> u' ->
  entries_of u' (snd (addToWatchlist u s co w)) = entries_of u' w.
Proof.
  intro Hneq. unfold entries_of.
  destruct (addToWatchlist_docs u s co w)
    as [-> | (_ & _ & _ & _ & _ & ->)]; [reflexivity |].
  destruct (db w). unfold set_docs.
  cbn [conn_error connection_db query_error users docs clock].
  rewrite filter_app. cbn [filter userId].
  destruct (u =? u')%string eqn:Hu;
    [apply String.eqb_eq in Hu; contradiction |].
  now rewrite app_nil_r.
Qed.

Lemma entries_after_remove_other u u' s w :
  u <> u' ->
  entries_of u' (snd (removeFromWatchlist u s w)) = entries_of u' w.
Proof.
  intro Hneq. unfold entries_of.
  destruct (removeFromWatchlist_docs u s w)
    as [[_ ->] | (_ & _ & _ & _ & _ & ->)]; [reflexivity |].
  destruct (db w). unfold set_docs.
  cbn [conn_error connection_db query_error users docs clock].
  now rewrite remove_first_other_user.
Qed.

Lemma addToWatchlist_flags u s co w :
  conn_error (db (snd (addToWatchlist u s co w))) = conn_error (db w) /\
  query_error (db (snd (addToWatchlist u s co w))) = query_error (db w).
Proof.
  destruct (addToWatchlist_docs u s co w)
    as [-> | (_ & _ & _ & _ & _ & ->)]; [split; reflexivity |].
  destruct (db w); split; reflexivity.
Qed.

Lemma removeFromWatchlist_flags u s w :
  conn_error (db (snd (removeFromWatchlist u s w))) = conn_error (db w) /\
  query_error (db (snd (removeFromWatchlist u s w))) = query_error (db w).
Proof.
  destruct (removeFromWatchlist_docs u s w)
    as [[_ ->] | (_ & _ & _ & _ & _ & ->)]; [split; reflexivity |].
  destruct (db w); split; reflexivity.
Qed.

(** X5.  What one user adds or removes never changes what List returns for
    another user, in any world and whatever the outcome of the Add or the
    Remove. *)
Theorem other_users_unaffected :
  forall u u' s co w,
    u <> u' ->
    fst (getUserWatchlist u' (snd (addToWatchlist u s co w)))
    = fst (getUserWatchlist u' w) /\
    fst (getUserWatchlist u' (snd (removeFromWatchlist u s w)))
    = fst (getUserWatchlist u' w).
Proof.
  intros u u' s co w Hneq. rewrite !getUserWatchlist_listed. split; f_equal.
  - apply listed_ext; try apply addToWatchlist_flags;
      try apply addToWatchlist_env.
    now apply entries_after_add_other.
  - apply listed_ext; try apply removeFromWatchlist_flags;
      try apply removeFromWatchlist_env.
    now apply entries_after_remove_other.
Qed.

Lemma other_users_unaffected_witness :
  fst (getUserWatchlist "u1"
         (snd (addToWatchlist "u2" "aapl" "Apple Inc" (sample_world with_key))))
  = fst (getUserWatchlist "u1" (sample_world with_key)) /\
  fst (getUserWatchlist "u1"
         (snd (removeFromWatchlist "u2" "aapl" (sample_world with_key))))
  = fst (getUserWatchlist "u1" (sample_world with_key)).
Proof.
  apply (other_users_unaffected "u2" "u1" "aapl" "Apple Inc"
           (sample_world with_key)).
  discriminate.
Defined.

(** X6.  The symbol is matched without regard to (ASCII) letter case: two
    spellings with the same upper-case form give the same result and the
    same world, for Add and for Remove. *)
Theorem symbol_case_insensitive :
  forall u s s' co w,
    toUpperCase s = toUpperCase s' ->
    addToWatchlist u s co w = addToWatchlist u s' co w /\
    removeFromWatchlist u s w = removeFromWatchlist u s' w.
Proof.
  intros u s s' co w Heq.
  assert (Ht : truthy_str s = truthy_str s').
  { now rewrite <- (truthy_toUpperCase s), <- (truthy_toUpperCase s'), Heq. }
  unfold addToWatchlist, removeFromWatchlist. now rewrite Ht, Heq.
Qed.

Lemma symbol_case_insensitive_witness :
  addToWatchlist "u1" "aApL" "Apple Inc" (sample_world with_key)
  = addToWatchlist "u1" "AAPL" "Apple Inc" (sample_world with_key) /\
  removeFromWatchlist "u1" "aApL" (sample_world with_key)
  = removeFromWatchlist "u1" "AAPL" (sample_world with_key).
Proof.
  apply (symbol_case_insensitive "u1" "aApL" "AAPL" "Apple Inc"
           (sample_world with_key)).
  reflexivity.
Defined.

(** X8.  In every world reachable from an empty collection, every stored
    entry has a non-empty user identifier, symbol and company, and its
    symbol is in upper case: Add stores nothing else. *)
Theorem stored_entries_well_formed :
  forall w d,
    reachable w -> In d (docs (db w)) ->
    truthy_str (userId d) = true /\ truthy_str (symbol d) = true /\
    truthy_str (company d) = true /\ toUpperCase (symbol d) = symbol d.
Proof.
  intros w d Hreach Hin.
  pose proof (reachable_well_formed w Hreach) as Hwf.
  rewrite Forall_forall in Hwf. exact (Hwf d Hin).
Qed.

Lemma stored_entries_well_formed_witness :
  truthy_str (userId (mkItem "u1" "AAPL" "Apple Inc" 3000)) = true /\
  truthy_str (symbol (mkItem "u1" "AAPL" "Apple Inc" 3000)) = true /\
  truthy_str (company (mkItem "u1" "AAPL" "Apple Inc" 3000)) = true /\
  toUpperCase (symbol (mkItem "u1" "AAPL" "Apple Inc" 3000))
  = symbol (mkItem "u1" "AAPL" "Apple Inc" 3000).
Proof.
  apply (stored_entries_well_formed once_added).
  - apply (reach_step fresh_world).
    + apply reach_empty. reflexivity.
    + apply step_add.
  - left. reflexivity.
Defined.

(** *** List after Remove *)

Lemma insert_desc_front x l :
  Forall (fun z => addedAt z <= addedAt x) l -> insert_desc x l = x :: l.
Proof.
  destruct l as [| y l]; [reflexivity |]. intro H. cbn.
  inversion H as [| ? ? Hy _]; subst.
  apply Z.leb_le in Hy. now rewrite Hy.
Qed.

Lemma filter_insert_desc q x l :
  StronglySorted (fun a b => addedAt b <= addedAt a) l ->
  filter q (insert_desc x l)
  = if q x then insert_desc x (filter q l) else filter q l.
Proof.
  induction 1 as [| y l Hs IH Hy]; cbn [insert_desc filter].
  - destruct (q x); reflexivity.
  - destruct (addedAt y <=? addedAt x) eqn:Hle.
    + cbn [filter]. destruct (q x); [| reflexivity].
      destruct (q y).
      * cbn [insert_desc]. now rewrite Hle.
      * symmetry. apply insert_desc_front.
        apply Z.leb_le in Hle. apply Forall_forall. intros z Hz.
        apply filter_In in Hz. destruct Hz as [Hz _].
        rewrite Forall_forall in Hy. specialize (Hy z Hz). lia.
    + cbn [filter]. rewrite IH. destruct (q y), (q x); try reflexivity.
      cbn [insert_desc]. now rewrite Hle.
Qed.

(** Filtering and sorting by [addedAt] commute. *)
Lemma filter_sort_desc q l :
  filter q (sort_desc l) = sort_desc (filter q l).
Proof.
  induction l as [| x l IH]; [reflexivity |]. cbn [sort_desc filter].
  rewrite filter_insert_desc by apply sort_desc_sorted.
  destruct (q x); cbn [sort_desc]; now rewrite IH.
Qed.

Lemma remove_first_filter u sym ds :
  unique_pairs ds ->
  remove_first (same_pair u sym) ds = other_pairs u sym ds.
Proof.
  unfold unique_pairs, other_pairs.
  induction ds as [| d ds IH]; [reflexivity |]. cbn [map].
  intro H. inversion H as [| ? ? Hnotin Hnd]; subst.
  cbn [remove_first filter]. destruct (same_pair u sym d) eqn:Hp; cbn [negb].
  - symmetry. apply forallb_filter_id, forallb_forall. intros x Hx.
    apply negb_true_iff. destruct (same_pair u sym x) eqn:Hpx; [| reflexivity].
    exfalso. apply Hnotin. apply same_pair_true in Hp, Hpx.
    rewrite Hp, <- Hpx. now apply (in_map (fun d => (userId d, symbol d))).
  - now rewrite IH.
Qed.

Lemma filter_user_other_pairs u sym ds :
  filter (fun i => (userId i =? u)%string) (other_pairs u sym ds)
  = filter (fun i => negb (symbol i =? sym)%string)
           (filter (fun i => (userId i =? u)%string) ds).
Proof.
  unfold other_pairs. induction ds as [| d ds IH]; [reflexivity |].
  cbn [filter]. unfold same_pair at 1.
  destruct (userId d =? u)%string eqn:Hu; cbn [andb negb filter].
  - destruct (symbol d =? sym)%string; cbn [negb filter]; rewrite ?Hu;
      now rewrite IH.
  - rewrite Hu. exact IH.
Qed.

Lemma map_entry_of_filter (q : WatchlistItem -> bool) rs :
  map entry_of (filter (fun r => q (entry_of r)) rs)
  = filter q (map entry_of rs).
Proof.
  induction rs as [| r rs IH]; [reflexivity |]. cbn [filter map].
  destruct (q (entry_of r)); cbn [map]; now rewrite IH.
Qed.

Lemma entries_after_remove u s w :
  unique_pairs (docs (db w)) ->
  success_of (fst (removeFromWatchlist u s w)) = true ->
  store_up (snd (removeFromWatchlist u s w)) /\
  entries_of u (snd (removeFromWatchlist u s w))
  = filter (fun i => negb (symbol i =? toUpperCase s)%string)
           (entries_of u w).
Proof.
  intros Hinv Hok.
  destruct (removeFromWatchlist_docs u s w)
    as [[Hno _] | (_ & Hu & Hs & Hup & Hex & Hdb)]; [congruence |].
  split.
  - unfold store_up. destruct (removeFromWatchlist_flags u s w) as [-> ->].
    exact Hup.
  - unfold entries_of. rewrite Hdb.
    destruct (set_docs_flags
                (remove_first (same_pair u (toUpperCase s)) (docs (db w)))
                (db w)) as (_ & _ & -> & _).
    rewrite (remove_first_filter _ _ _ Hinv), filter_user_other_pairs.
    now rewrite filter_sort_desc.
Qed.

(** X7.  After a Remove that reported success (pairs being unique), List
    for that user returns the entries it returned before, in the same
    order, without the one of the removed symbol. *)
Theorem removed_entry_gone_from_list :
  forall u s w rs rs',
    unique_pairs (docs (db w)) ->
    success_of (fst (removeFromWatchlist u s w)) = true ->
    fst (getUserWatchlist u w) = Ret rs ->
    fst (getUserWatchlist u (snd (removeFromWatchlist u s w))) = Ret rs' ->
    map entry_of rs'
    = filter (fun i => negb (symbol i =? toUpperCase s)%string)
             (map entry_of rs).
Proof.
  intros u s w rs rs' Hinv Hok Hrs Hrs'.
  destruct (entries_after_remove u s w Hinv Hok) as [Hup' Hent].
  destruct (removeFromWatchlist_docs u s w)
    as [[Hno _] | (_ & Hu & _ & Hup & _ & _)]; [congruence |].
  rewrite (getUserWatchlist_entries u w rs Hu Hup Hrs).
  rewrite (getUserWatchlist_entries u _ rs' Hu Hup' Hrs').
  exact Hent.
Qed.

Lemma removed_entry_gone_from_list_witness :
  map entry_of (listed "u1" (snd (removeFromWatchlist "u1" "msft"
                                    (sample_world with_key))))
  = filter (fun i => negb (symbol i =? toUpperCase "msft")%string)
           (map entry_of (listed "u1" (sample_world with_key))).
Proof.
  apply (removed_entry_gone_from_list "u1" "msft" (sample_world with_key)).
  - exact sample_unique_pairs.
  - reflexivity.
  - reflexivity.
  - reflexivity.
Defined.

(** *** The identity resolver *)

(** X9.  For an email whose user record yields a non-empty identifier
    ([id] when it is a non-empty string, else [_id]), with the store
    answering, [getWatchlistSymbolsByEmail] returns the symbols of that
    user's entries in store order: the same symbols List returns for that
    identifier, up to order. *)
Theorem symbols_by_email_resolved :
  forall em w usr rs,
    truthy_str em = true -> store_up w -> connection_db (db w) = true ->
    find (fun u => (user_email u =? em)%string) (users (db w)) = Some usr ->
    truthy_str (resolved_id usr) = true ->
    fst (getUserWatchlist (resolved_id usr) w) = Ret rs ->
    fst (getWatchlistSymbolsByEmail em w)
    = Ret (map symbol
             (filter (fun i => (userId i =? resolved_id usr)%string)
                     (docs (db w)))) /\
    Permutation (map sw_symbol rs)
      (map symbol
         (filter (fun i => (userId i =? resolved_id usr)%string)
                 (docs (db w)))).
Proof.
  intros em w usr rs Hem [Hc Hq] Hdb Hfind Hid Hrs. split.
  - unfold getWatchlistSymbolsByEmail. rewrite Hem.
    destruct w as [[ce cdb qe us ds ck] e up con qs].
    cbn in Hc, Hq, Hdb, Hfind. subst ce qe cdb. cbn [negb].
    run_store. cbn [negb]. run_store. rewrite Hfind.
    fold (resolved_id usr). rewrite Hid. reflexivity.
  - change (map sw_symbol rs) with (map (fun r => symbol (entry_of r)) rs).
    rewrite <- (map_map entry_of symbol).
    rewrite (getUserWatchlist_entries _ w rs Hid (conj Hc Hq) Hrs).
    apply Permutation_map, sort_desc_perm.
Qed.

Lemma symbols_by_email_resolved_witness :
  fst (getWatchlistSymbolsByEmail "ann@example.com" sample_world_users)
  = Ret (map symbol
           (filter (fun i => (userId i =? resolved_id sample_user)%string)
                   (docs (db sample_world_users)))) /\
  Permutation
    (map sw_symbol (listed (resolved_id sample_user) sample_world_users))
    (map symbol
       (filter (fun i => (userId i =? resolved_id sample_user)%string)
               (docs (db sample_world_users)))).
Proof.
  apply (symbols_by_email_resolved "ann@example.com" sample_world_users
           sample_user).
  - reflexivity.
  - split; reflexivity.
  - reflexivity.
  - reflexivity.
  - reflexivity.
  - reflexivity.
Defined.

(** X10.  The misses of the resolver.  With the store answering, an email
    that matches no user record, or a record with neither a non-empty [id]
    nor an [_id], gives the empty list after the connection and the one
    user lookup: the Watchlist collection is not queried and nothing is
    written to the console.  When the connection has no database handle the
    lookup is not made either: the error is written to the console and the
    list is empty. *)
Theorem symbols_by_email_misses :
  forall em w,
    truthy_str em = true -> conn_error (db w) = None ->
    (connection_db (db w) = true -> query_error (db w) = None ->
     find (fun u => (user_email u =? em)%string) (users (db w)) = None \/
     (exists usr,
        find (fun u => (user_email u =? em)%string) (users (db w)) = Some usr
        /\ truthy_str (resolved_id usr) = false) ->
     fst (getWatchlistSymbolsByEmail em w) = Ret [] /\
     queries (snd (getWatchlistSymbolsByEmail em w))
     = (queries w ++ [OpConnect; OpFindOne em])%list /\
     console (snd (getWatchlistSymbolsByEmail em w)) = console w) /\
    (connection_db (db w) = false ->
     fst (getWatchlistSymbolsByEmail em w) = Ret [] /\
     queries (snd (getWatchlistSymbolsByEmail em w))
     = (queries w ++ [OpConnect])%list /\
     console (snd (getWatchlistSymbolsByEmail em w))
     = (console w ++ ["getWatchlistSymbolsByEmail error:"])%list).
Proof.
  intros em w Hem Hc. unfold getWatchlistSymbolsByEmail. rewrite Hem.
  destruct w as [[ce cdb qe us ds ck] e up con qs]. cbn in Hc. subst ce.
  cbn [negb db connection_db query_error users]. split.
  - intros -> -> Hmiss. run_store. cbn [negb]. run_store.
    destruct Hmiss as [-> | (usr & -> & Hid)].
    + cbn. rewrite <- app_assoc. repeat split.
    + fold (resolved_id usr). rewrite Hid. cbn. rewrite <- app_assoc.
      repeat split.
  - intros ->. run_store. cbn [negb]. run_store. repeat split.
Qed.

Lemma symbols_by_email_misses_witness :
  fst (getWatchlistSymbolsByEmail "bob@example.com" sample_world_users)
  = Ret [] /\
  queries (snd (getWatchlistSymbolsByEmail "bob@example.com"
                  sample_world_users))
  = (queries sample_world_users
     ++ [OpConnect; OpFindOne "bob@example.com"])%list /\
  console (snd (getWatchlistSymbolsByEmail "bob@example.com"
                  sample_world_users))
  = console sample_world_users.
Proof.
  apply (proj1 (symbols_by_email_misses "bob@example.com" sample_world_users
                  eq_refl eq_refl)).
  - reflexivity.
  - reflexivity.
  - left. reflexivity.
Defined.

(** *** What is written to the console *)

Lemma calls_throw_b_true up token item :
  calls_throw_b up token item = true <-> calls_throw up token item.
Proof.
  unfold calls_throw_b, calls_throw.
  destruct (up (quoteUrl token item)) as [q | e1];
    destruct (up (profileUrl token item)) as [p | e2];
    destruct (up (financialsUrl token item)) as [f | e3];
    split; intro H; try reflexivity; try discriminate;
    try (destruct H as [[e H] | [[e H] | [e H]]]; discriminate);
    eauto.
Qed.

Lemma run_task_enrichItem_lines up token item :
  snd (run_task up (enrichItem token item))
  = if calls_throw_b up token item then [fetch_error_line item] else [].
Proof.
  unfold enrichItem, calls_throw_b, fetchJson, fetch_error_line.
  cbn [tcatch tbind run_task].
  destruct (up (quoteUrl token item));
    cbn [tcatch tbind run_task fst snd]; [| reflexivity].
  destruct (up (profileUrl token item));
    cbn [tcatch tbind run_task fst snd]; [| reflexivity].
  destruct (up (financialsUrl token item)); reflexivity.
Qed.

Lemma promise_all_run_lines up token l :
  snd (promise_all_run up (map (enrichItem token) l))
  = map fetch_error_line (filter (calls_throw_b up token) l).
Proof.
  induction l as [| a l IH]; [reflexivity |].
  cbn [map promise_all_run filter].
  pose proof (run_task_enrichItem_lines up token a) as Ha.
  destruct (run_task up (enrichItem token a)) as [r ls].
  destruct (promise_all_run up (map (enrichItem token) l)) as [rs ls'].
  cbn [snd] in *. subst ls ls'.
  destruct (calls_throw_b up token a); reflexivity.
Qed.

(** X12.  With a non-empty user identifier, every degraded path of List
    leaves a line on the console: one line when the store fails, one when
    no credential is configured, and, with a credential, exactly one line
    for each entry one of whose calls throws (naming its symbol) and no
    other line, so none at all when every call returns. *)
Theorem degraded_paths_are_logged :
  forall u w,
    truthy_str u = true ->
    let w' := snd (getUserWatchlist u w) in
    (~ store_up w ->
     console w' = (console w ++ ["getUserWatchlist error:"])%list) /\
    (store_up w -> usable_token (env w) = None ->
     console w' = (console w ++ ["FINNHUB API key not configured"])%list) /\
    (forall token,
       store_up w -> usable_token (env w) = Some token ->
       exists added,
         console w' = (console w ++ added)%list /\
         Permutation added
           (map fetch_error_line
              (filter (calls_throw_b (upstream w) token) (entries_of u w))) /\
         (added = [] <->
          forall item, In item (entries_of u w) ->
                       ~ calls_throw (upstream w) token item)).
Proof.
  intros u w Hu w'. subst w'. unfold getUserWatchlist, store_up, entries_of.
  rewrite Hu. cbn [negb].
  destruct w as [[ce cdb qe us ds ck] e up con qs].
  cbn [db env upstream console conn_error query_error docs].
  split; [| split].
  - intro Hdown. destruct ce as [err |]; [reflexivity |].
    destruct qe as [err |]; [reflexivity |].
    exfalso. apply Hdown. split; reflexivity.
  - intros [-> ->] Htok. run_store. rewrite Htok. reflexivity.
  - intros token [-> ->] Htok. run_store. rewrite Htok. run_store.
    pose proof (promise_all_run_lines up token
      (sort_desc (filter (fun i => (userId i =? u)%string) ds))) as Hl.
    pose proof (promise_all_run_enrich up token
      (sort_desc (filter (fun i => (userId i =? u)%string) ds))) as Hr.
    destruct (promise_all_run up _) as [r ls]. cbn [fst snd] in Hl, Hr.
    subst r ls. cbn [snd console].
    eexists. split; [reflexivity | split; [reflexivity |]].
    split.
    + intros Hnil item Hin Hthrow. apply calls_throw_b_true in Hthrow.
      assert (Hin' : In (fetch_error_line item)
                (map fetch_error_line
                   (filter (calls_throw_b up token)
                      (sort_desc
                         (filter (fun i => (userId i =? u)%string) ds))))).
      { apply in_map, filter_In. now split. }
      rewrite Hnil in Hin'. exact Hin'.
    + intro Hnone.
      destruct (filter (calls_throw_b up token)
                  (sort_desc (filter (fun i => (userId i =? u)%string) ds)))
        as [| item rest] eqn:Hf; [reflexivity |].
      exfalso. assert (Hin : In item (item :: rest)) by now left.
      rewrite <- Hf in Hin. apply filter_In in Hin. destruct Hin as [Hin Hb].
      apply (Hnone item Hin). now apply calls_throw_b_true.
Qed.

Lemma degraded_paths_are_logged_witness :
  exists added,
    console (snd (getUserWatchlist "u1" (sample_world with_key)))
    = (console (sample_world with_key) ++ added)%list /\
    Permutation added
      (map fetch_error_line
         (filter (calls_throw_b (upstream (sample_world with_key)) "key")
                 (entries_of "u1" (sample_world with_key)))) /\
    (added = [] <->
     forall item, In item (entries_of "u1" (sample_world with_key)) ->
       ~ calls_throw (upstream (sample_world with_key)) "key" item).
Proof.
  apply (proj2 (proj2 (degraded_paths_are_logged "u1" (sample_world with_key)
                         eq_refl)) "key").
  - split; reflexivity.
  - reflexivity.
Defined.

(** *** The sign of the change *)

Lemma Prim2SF_zero : Prim2SF 0 = S754_zero false.
Proof. reflexivity. Qed.

Lemma truthy_sign x :
  truthy x = true ->
  (PrimFloat.ltb 0 x = true /\ PrimFloat.ltb x 0 = false /\
   starts_with "+" (formatChange x)) \/
  (PrimFloat.ltb 0 x = false /\ PrimFloat.ltb x 0 = true /\
   starts_with "-" (formatChange x)).
Proof.
  unfold truthy, formatChange, toFixed, starts_with.
  rewrite !FloatAxioms.eqb_spec, !FloatAxioms.ltb_spec, Prim2SF_zero.
  destruct (Prim2SF x) as [sg | sg | | sg m e];
    unfold SFeqb, SFltb, SFcompare; try discriminate.
  - intros _. destruct sg; [right | left]; repeat split; eexists;
      reflexivity.
  - intros _. destruct sg; [right | left]; repeat split.
    + destruct (10 ^ 21 <=? (if 0 <=? e then Z.pos m * 2 ^ e else 0));
        eexists; reflexivity.
    + eexists; reflexivity.
Qed.

(** X13.  A formatted percent change always carries its sign: for every
    value the merge formats (any number but zero and NaN), the text starts
    with "+" when the value is above zero and with "-" when it is below,
    and one of the two is the case. *)
Theorem change_always_signed :
  forall item q p f x,
    opt_get q dp = Some x -> truthy x = true ->
    exists text,
      changeFormatted (merge item q p f) = Some text /\
      ((PrimFloat.ltb 0 x = true /\ starts_with "+" text) \/
       (PrimFloat.ltb x 0 = true /\ starts_with "-" text)).
Proof.
  intros item q p f x Hdp Hx. exists (formatChange x). split.
  - unfold merge. cbn [changeFormatted]. rewrite Hdp. unfold when_truthy.
    now rewrite Hx.
  - destruct (truthy_sign x Hx) as [(H1 & _ & H3) | (_ & H2 & H3)];
      [left | right]; now split.
Qed.

Lemma change_always_signed_witness :
  exists text,
    changeFormatted (merge MSFT (Some (mkBody None (Some (-0.001)%float)
                                         None None)) None None)
    = Some text /\
    ((PrimFloat.ltb 0 (-0.001) = true /\ starts_with "+" text) \/
     (PrimFloat.ltb (-0.001) 0 = true /\ starts_with "-" text)).
Proof.
  apply (change_always_signed MSFT
           (Some (mkBody None (Some (-0.001)%float) None None)) None None).
  - reflexivity.
  - reflexivity.
Defined.

(** *** The table *)

Lemma or_NA_starts ch text :
  starts_with ch text -> or_NA (Some text) = text.
Proof. intros [rest ->]. reflexivity. Qed.

(** X14.  In a row built from a merged record the colour of the change
    cell agrees with its text: grey with "N/A" when the change is absent,
    zero or NaN; green with a text that starts with "+", or red with a text
    that starts with "-", otherwise. *)
Theorem change_cell_colour_agrees :
  forall rm item q p f,
    let row := render_row rm (merge item q p f) in
    (truthy_opt (opt_get q dp) = false ->
     cell_change_class row = "text-gray-400" /\ cell_change row = "N/A") /\
    (truthy_opt (opt_get q dp) = true ->
     (cell_change_class row = "text-green-500" /\
      starts_with "+" (cell_change row)) \/
     (cell_change_class row = "text-red-500" /\
      starts_with "-" (cell_change row))).
Proof.
  intros rm item q p f row. subst row. unfold render_row, merge, changeColor.
  cbn [cell_change_class cell_change changePercent changeFormatted].
  destruct (opt_get q dp) as [x |]; cbn [truthy_opt when_truthy].
  - destruct (truthy x) eqn:Hx; split; try discriminate.
    + intros _.
      destruct (truthy_sign x Hx) as [(H1 & H2 & H3) | (H1 & H2 & H3)];
        rewrite H1, ?H2; cbn [andb]; [left | right];
        rewrite (or_NA_starts _ _ H3); now split.
    + intros _. split; reflexivity.
  - split; [intros _; split; reflexivity | discriminate].
Qed.

Lemma change_cell_colour_agrees_witness :
  cell_change_class
    (render_row None (merge AAPL (Some (mkBody None (Some 0%float) None None))
                        None None)) = "text-gray-400" /\
  cell_change
    (render_row None (merge AAPL (Some (mkBody None (Some 0%float) None None))
                        None None)) = "N/A".
Proof.
  apply (proj1 (change_cell_colour_agrees None AAPL
                  (Some (mkBody None (Some 0%float) None None)) None None)).
  reflexivity.
Defined.

(** *** The page *)

Lemma WatchlistPage_signed_in sess user w :
  opt_get sess session_user = Some user ->
  exists rs,
    fst (getUserWatchlist (auth_id user) w) = Ret rs /\
    fst (WatchlistPage (Ret sess) w) = Ret (Page rs (auth_id user)) /\
    snd (WatchlistPage (Ret sess) w)
    = snd (getUserWatchlist (auth_id user) w).
Proof.
  intro Huser. unfold WatchlistPage, bind, ret. rewrite Huser.
  destruct (getUserWatchlist_total (auth_id user) w) as [rs Hrs].
  exists rs. split; [exact Hrs |].
  destruct (getUserWatchlist (auth_id user) w) as [r w'].
  cbn [fst snd] in *. subst r. split; reflexivity.
Qed.

(** X15.  The page has three outcomes.  It throws only when the session
    lookup does, and then nothing has been done.  Without a signed-in user
    it is the redirect to "/sign-in", and the store has not been touched.
    With a signed-in user it always renders, in every world, handing to the
    table what List returns for the user's identifier. *)
Theorem page_redirects_or_renders :
  forall gs w,
    (forall e, gs = Throw e -> WatchlistPage gs w = (Throw e, w)) /\
    (forall sess,
       gs = Ret sess -> opt_get sess session_user = None ->
       WatchlistPage gs w = (Ret (Redirected "/sign-in"), w)) /\
    (forall sess user,
       gs = Ret sess -> opt_get sess session_user = Some user ->
       exists rs,
         fst (getUserWatchlist (auth_id user) w) = Ret rs /\
         fst (WatchlistPage gs w) = Ret (Page rs (auth_id user)) /\
         snd (WatchlistPage gs w) = snd (getUserWatchlist (auth_id user) w)).
Proof.
  intros gs w. unfold WatchlistPage, bind, ret. split; [| split].
  - intros e ->. reflexivity.
  - intros sess -> Hnone. now rewrite Hnone.
  - intros sess user -> Huser. now apply WatchlistPage_signed_in.
Qed.

Lemma page_redirects_or_renders_witness :
  WatchlistPage (Ret (Some (mkSession None))) (sample_world with_key)
  = (Ret (Redirected "/sign-in"), sample_world with_key).
Proof.
  apply (proj1 (proj2 (page_redirects_or_renders
                         (Ret (Some (mkSession None)))
                         (sample_world with_key)))
           (Some (mkSession None))).
  - reflexivity.
  - reflexivity.
Defined.

(** X16.  A signed-in user whose store is failing is shown the empty-state
    block ("Your watchlist is empty"), not an error: the page renders and
    the table has no rows. *)
Theorem page_store_failure_shows_empty_state :
  forall header sess user w,
    opt_get sess session_user = Some user -> ~ store_up w ->
    exists p,
      fst (WatchlistPage (Ret sess) w) = Ret p /\
      shown header p
      = Some (EmptyState "Your watchlist is empty"
                "Add stocks to your watchlist to track them here").
Proof.
  intros header sess user w Huser Hdown.
  destruct (WatchlistPage_signed_in sess user w Huser) as (rs & Hrs & Hp & _).
  exists (Page rs (auth_id user)). split; [exact Hp |].
  rewrite getUserWatchlist_listed in Hrs. injection Hrs as <-.
  unfold listed.
  assert (Hb : store_up_b w = false).
  { destruct (store_up_b w) eqn:Hb; [| reflexivity].
    apply store_up_b_true in Hb. contradiction. }
  rewrite Hb, andb_false_r. reflexivity.
Qed.

Lemma page_store_failure_shows_empty_state_witness :
  exists p,
    fst (WatchlistPage (Ret (Some (mkSession (Some (mkAuthUser "u1")))))
           (mkWorld (mkDb (Some store_lost) true None [] [AAPL; MSFT] 3000)
                    with_key sample_upstream [] [])) = Ret p /\
    shown ["Company"; "Symbol"] p
    = Some (EmptyState "Your watchlist is empty"
              "Add stocks to your watchlist to track them here").
Proof.
  apply (page_store_failure_shows_empty_state ["Company"; "Symbol"]
           (Some (mkSession (Some (mkAuthUser "u1")))) (mkAuthUser "u1")).
  - reflexivity.
  - intros [H _]. discriminate H.
Defined.

Lemma render_rows header rs :
  rs <> [] ->
  render header (mount rs) = TableView header (map (render_row None) rs).
Proof. destruct rs; [contradiction | reflexivity]. Qed.

(** X17.  With no credential configured, a signed-in user who has entries
    is shown one row per entry, latest first, with company and symbol as
    stored, "N/A" in the price, change, market-cap and P/E cells, the grey
    class, and an enabled "Remove" button. *)
Theorem page_without_credential_shows_NA :
  forall header sess user w,
    opt_get sess session_user = Some user ->
    truthy_str (auth_id user) = true -> store_up w ->
    usable_token (env w) = None -> entries_of (auth_id user) w <> [] ->
    exists p,
      fst (WatchlistPage (Ret sess) w) = Ret p /\
      shown header p
      = Some (TableView header
                (map (fun item =>
                        mkRow (symbol item) (company item) (symbol item)
                              "N/A" "N/A" "text-gray-400" "N/A" "N/A" "None"
                              false "Remove")
                     (entries_of (auth_id user) w))).
Proof.
  intros header sess user w Huser Hu Hup Htok Hne.
  destruct (WatchlistPage_signed_in sess user w Huser) as (rs & Hrs & Hp & _).
  exists (Page rs (auth_id user)). split; [exact Hp |].
  rewrite (getUserWatchlist_up _ w Hu Hup), Htok in Hrs.
  injection Hrs as <-. cbn [shown]. rewrite render_rows.
  - now rewrite map_map.
  - intro H. apply Hne. now apply map_eq_nil in H.
Qed.

Lemma page_without_credential_shows_NA_witness :
  exists p,
    fst (WatchlistPage sample_session (sample_world no_key)) = Ret p /\
    shown ["Company"; "Symbol"] p
    = Some (TableView ["Company"; "Symbol"]
              (map (fun item =>
                      mkRow (symbol item) (company item) (symbol item)
                            "N/A" "N/A" "text-gray-400" "N/A" "N/A" "None"
                            false "Remove")
                   (entries_of (auth_id (mkAuthUser "u1"))
                               (sample_world no_key)))).
Proof.
  apply (page_without_credential_shows_NA ["Company"; "Symbol"]
           (Some (mkSession (Some (mkAuthUser "u1")))) (mkAuthUser "u1")
           (sample_world no_key)).
  - reflexivity.
  - reflexivity.
  - split; reflexivity.
  - reflexivity.
  - discriminate.
Defined.

(** *** The table and the store after a removal *)

Lemma listed_row_stored u w row :
  truthy_str u = true -> store_up w ->
  In row (listed u w) ->
  In (entry_of row) (docs (db w)) /\ userId (entry_of row) = u.
Proof.
  intros Hu Hup Hin.
  pose proof (getUserWatchlist_entries u w (listed u w) Hu Hup
                (getUserWatchlist_listed u w)) as Hent.
  apply (in_map entry_of) in Hin. rewrite Hent in Hin. unfold entries_of in Hin.
  apply (Permutation_in _ (sort_desc_perm _)) in Hin.
  apply filter_In in Hin. destruct Hin as [Hin Hid].
  apply String.eqb_eq in Hid. now split.
Qed.

Lemma filter_map_same {A B : Type} (g : A -> B) (q : A -> bool)
  (q' : B -> bool) l :
  (forall a, q' (g a) = q a) ->
  filter q' (map g l) = map g (filter q l).
Proof.
  intro H. induction l as [| a l IH]; [reflexivity |]. cbn [map filter].
  rewrite H. destruct (q a); cbn [map]; now rewrite IH.
Qed.

Lemma sw_symbol_enriched up token item :
  sw_symbol (enriched up token item) = symbol item.
Proof.
  change (sw_symbol (enriched up token item))
    with (symbol (entry_of (enriched up token item))).
  now rewrite entry_of_enriched.
Qed.

(** X18.  Removing a row of the table keeps the table in step with the
    store.  In a world reachable from an empty collection, with the store
    answering, for a table mounted on what List returns for the user and
    any of its rows: [handleRemove] on the row's symbol shows the success
    notification, no row of that symbol is left, and the rows of the table
    are exactly what List returns from the store afterwards. *)
Theorem removal_keeps_table_in_step :
  forall u w row,
    reachable w -> truthy_str u = true -> store_up w ->
    In row (listed u w) ->
    let v' := fst (handleRemove None u (sw_symbol row) (mount (listed u w)) w) in
    let w' := snd (handleRemove None u (sw_symbol row) (mount (listed u w)) w) in
    toasts v' = [toast_success "Removed from watchlist"] /\
    removing v' = None /\
    ~ In (sw_symbol row) (map sw_symbol (items v')) /\
    fst (getUserWatchlist u w') = Ret (items v').
Proof.
  intros u w row Hreach Hu Hup Hin v' w'.
  destruct (listed_row_stored u w row Hu Hup Hin) as [Hstored Hid].
  pose proof (reachable_unique_pairs w Hreach) as Hinv.
  pose proof (reachable_well_formed w Hreach) as Hwf.
  rewrite Forall_forall in Hwf.
  destruct (Hwf _ Hstored) as (_ & Hs & _ & Hupper).
  cbn [entry_of symbol] in Hs, Hupper.
  assert (Hex : existsb (same_pair u (toUpperCase (sw_symbol row)))
                        (docs (db w)) = true).
  { rewrite Hupper. apply existsb_exists. exists (entry_of row).
    split; [exact Hstored |]. apply same_pair_true. now rewrite Hid. }
  destruct (removeFromWatchlist_present u (sw_symbol row) w Hu Hs Hup Hex)
    as [Hr _].
  assert (Hok : success_of (fst (removeFromWatchlist u (sw_symbol row) w))
                = true) by now rewrite Hr.
  destruct (entries_after_remove u (sw_symbol row) w Hinv Hok) as [Hup' Hent].
  destruct (removeFromWatchlist_env u (sw_symbol row) w) as [Henv Hups].
  rewrite Hupper in Hent.
  subst v' w'. unfold handleRemove, call_action.
  destruct (removeFromWatchlist u (sw_symbol row) w) as [r w1].
  cbn [fst snd] in *. subst r.
  cbn [success setRemoving setItems toast mount items removing toasts app].
  repeat split.
  - rewrite in_map_iff. intros (x & Hx & Hxin). apply filter_In in Hxin.
    destruct Hxin as [_ Hneq]. apply negb_true_iff, String.eqb_neq in Hneq.
    contradiction.
  - rewrite getUserWatchlist_listed. f_equal. unfold listed.
    apply store_up_b_true in Hup, Hup'.
    rewrite Hu, Hup, Hup', Henv, Hups, Hent. cbn [andb].
    destruct (usable_token (env w)) as [token |]; symmetry;
      apply filter_map_same; intro item; [| reflexivity].
    now rewrite sw_symbol_enriched.
Qed.

Lemma removal_keeps_table_in_step_witness :
  toasts (fst (handleRemove None "u1" (sw_symbol (basic (mkItem "u1" "AAPL"
                "Apple Inc" 3000))) (mount (listed "u1" once_added))
                once_added))
  = [toast_success "Removed from watchlist"] /\
  removing (fst (handleRemove None "u1" (sw_symbol (basic (mkItem "u1" "AAPL"
                "Apple Inc" 3000))) (mount (listed "u1" once_added))
                once_added)) = None /\
  ~ In (sw_symbol (basic (mkItem "u1" "AAPL" "Apple Inc" 3000)))
       (map sw_symbol
          (items (fst (handleRemove None "u1"
                         (sw_symbol (basic (mkItem "u1" "AAPL" "Apple Inc"
                                              3000)))
                         (mount (listed "u1" once_added)) once_added)))) /\
  fst (getUserWatchlist "u1"
         (snd (handleRemove None "u1"
                 (sw_symbol (basic (mkItem "u1" "AAPL" "Apple Inc" 3000)))
                 (mount (listed "u1" once_added)) once_added)))
  = Ret (items (fst (handleRemove None "u1"
                       (sw_symbol (basic (mkItem "u1" "AAPL" "Apple Inc"
                                            3000)))
                       (mount (listed "u1" once_added)) once_added))).
Proof.
  apply (removal_keeps_table_in_step "u1" once_added
           (basic (mkItem "u1" "AAPL" "Apple Inc" 3000))).
  - apply (reach_step fresh_world).
    + apply reach_empty. reflexivity.
    + apply step_add.
  - reflexivity.
  - split; reflexivity.
  - left. reflexivity.
Defined.

(** *** The two copies of List *)

Lemma getUserWatchlist_plain_result u w :
  fst (getUserWatchlist_plain u w)
  = Ret (if truthy_str u && store_up_b w
         then map basic (entries_of u w) else []).
Proof.
  unfold getUserWatchlist_plain, store_up_b, entries_of.
  destruct (truthy_str u); [| reflexivity]. cbn [negb andb].
  destruct w as [[[err |] cdb [err' |] us ds ck] e up con qs]; reflexivity.
Qed.

(** X19.  The enrichment only adds fields.  In every world, what the copy
    of List with the enrichment step returns and what the copy without it
    returns have the same stored fields, entry by entry in the same order;
    without a credential the two lists are the same. *)
Theorem enrichment_only_adds_fields :
  forall u w rs rs0,
    fst (getUserWatchlist u w) = Ret rs ->
    fst (getUserWatchlist_plain u w) = Ret rs0 ->
    map entry_of rs = map entry_of rs0 /\
    (usable_token (env w) = None -> rs = rs0).
Proof.
  intros u w rs rs0 Hrs Hrs0.
  rewrite getUserWatchlist_listed in Hrs.
  rewrite getUserWatchlist_plain_result in Hrs0.
  injection Hrs as <-. injection Hrs0 as <-.
  unfold listed. destruct (truthy_str u && store_up_b w).
  - split.
    + destruct (usable_token (env w)); [| reflexivity].
      now rewrite map_entry_of_enriched, map_entry_of_basic.
    + now intros ->.
  - split; reflexivity.
Qed.

Lemma enrichment_only_adds_fields_witness :
  map entry_of (listed "u1" (sample_world with_key))
  = map entry_of [basic MSFT; basic AAPL] /\
  (usable_token (env (sample_world with_key)) = None ->
   listed "u1" (sample_world with_key) = [basic MSFT; basic AAPL]).
Proof.
  apply (enrichment_only_adds_fields "u1" (sample_world with_key)).
  - reflexivity.
  - reflexivity.
Defined.
